(** * export_data.py: the per-event ledger export of BittyTax

    A shallow embedding of [src/export_data.py] and the properties the
    specification states about it.

    Conventions of the embedding:
    - a Python [str] is the list of its code points ([list N]), so that
      [len] counts characters the way Python does;
    - a Python [int] is a [Z]; [len] returns a [Z];
    - a Python exception (IndexError, ValueError) is [None];
    - the terminal width and [sys.stdout.isatty()] are inputs of the
      functions that read them. *)

From Stdlib Require Import ZArith NArith List String Ascii Lia.
From stdpp Require Import base option numbers list gmap sorting.

Local Open Scope Z_scope.

(** ** Python strings *)

Module Py.

Abbreviation str := (list N).

(** An ASCII literal of the source, as a Python string. *)
Definition lit (s : string) : str :=
  map N_of_ascii (list_ascii_of_string s).

(** [len(x)] *)
Definition len {A} (x : list A) : Z := Z.of_nat (length x).

(** [s[:n]]: a negative bound counts from the end. *)
Definition slice_to {A} (s : list A) (n : Z) : list A :=
  if n <? 0 then take (Z.to_nat (len s + n)) s else take (Z.to_nat n) s.

(** [c * n] for a one-character string [c]: empty when [n <= 0]. *)
Definition repeat_char (c : N) (n : Z) : str := replicate (Z.to_nat n) c.

Definition SPACE : N := 32%N.
Definition DASH : N := 45%N.

(** [text.ljust(width)] and [text.rjust(width)]: padding with spaces, never
    cutting. *)
Definition ljust (text : str) (width : Z) : str :=
  text ++ repeat_char SPACE (width - len text).

Definition rjust (text : str) (width : Z) : str :=
  repeat_char SPACE (width - len text) ++ text.

(** [sep.join(parts)] *)
Fixpoint join (sep : str) (parts : list str) : str :=
  match parts with
  | [] => []
  | [p] => p
  | p :: rest => p ++ sep ++ join sep rest
  end.

(** [sum(xs)] over integers *)
Definition sum (xs : list Z) : Z := fold_left Z.add xs 0.

(** [max(xs)] over a non-empty list of integers, given as head and tail *)
Definition max_of (x : Z) (xs : list Z) : Z := fold_left Z.max xs x.

(** [max(xs, key=key)]: the first element whose key is maximal;
    ValueError on an empty sequence. *)
Definition max_key (key : nat → Z) (xs : list nat) : option nat :=
  match xs with
  | [] => None
  | x :: rest =>
      Some (fold_left (fun best y => if key best <? key y then y else best) rest x)
  end.

(** [enumerate(xs)] *)
Definition enumerate {A} (xs : list A) : list (nat * A) := imap pair xs.

(** [range(n)] *)
Definition range (n : nat) : list nat := seq 0 n.

End Py.

Import Py.

(** ** Decimal values

    The finite values of Python's [decimal.Decimal], as sign, coefficient and
    exponent: the value is [(-1)^sign * coeff * 10^exp]. Arithmetic is that
    of the default context: 28 significant digits, rounding half to even.
    The context's exponent limits (Emin, Emax) are not modelled, nor are
    NaN and the infinities. *)

Module Dec.

Record t := mk { sign : bool; coeff : N; exp : Z }.

(** [Decimal(0)] *)
Definition zero : t := mk false 0 0.

(** The context precision. *)
Definition prec : Z := 28.

Definition ZERO : N := 48%N.
Definition MINUS : N := 45%N.
Definition DOT : N := 46%N.

Fixpoint digits_of_uint (d : Decimal.uint) : str :=
  match d with
  | Decimal.Nil => []
  | Decimal.D0 d => 48%N :: digits_of_uint d
  | Decimal.D1 d => 49%N :: digits_of_uint d
  | Decimal.D2 d => 50%N :: digits_of_uint d
  | Decimal.D3 d => 51%N :: digits_of_uint d
  | Decimal.D4 d => 52%N :: digits_of_uint d
  | Decimal.D5 d => 53%N :: digits_of_uint d
  | Decimal.D6 d => 54%N :: digits_of_uint d
  | Decimal.D7 d => 55%N :: digits_of_uint d
  | Decimal.D8 d => 56%N :: digits_of_uint d
  | Decimal.D9 d => 57%N :: digits_of_uint d
  end.

(** The coefficient's digits, most significant first ([self._int]); zero is
    the one digit 0. *)
Definition digits (c : N) : str := digits_of_uint (N.to_uint c).

(** [c / 10^k], rounded half to even. *)
Definition round_half_even (c : N) (k : N) : N :=
  let p := (10 ^ k)%N in
  let q := (c / p)%N in
  let r := (c mod p)%N in
  match (2 * r ?= p)%N with
  | Lt => q
  | Gt => (q + 1)%N
  | Eq => if N.even q then q else (q + 1)%N
  end.

(** Rounding to the context precision ([_fix]). *)
Definition fix_ (d : t) : t :=
  let n := len (digits (coeff d)) in
  if n <=? prec then d
  else
    let k := n - prec in
    let c := round_half_even (coeff d) (Z.to_N k) in
    if (10 ^ Z.to_N prec <=? c)%N then mk (sign d) (c / 10) (exp d + k + 1)
    else mk (sign d) c (exp d + k).

(** [_rescale(e, ROUND_HALF_EVEN)]: the same value with exponent [e]. *)
Definition rescale (d : t) (e : Z) : t :=
  if (coeff d =? 0)%N then mk (sign d) 0 e
  else if e <=? exp d then mk (sign d) (coeff d * 10 ^ Z.to_N (exp d - e)) e
  else mk (sign d) (round_half_even (coeff d) (Z.to_N (e - exp d))) e.

(** The coefficient as a signed integer at exponent [e <= exp d]. *)
Definition signed_at (d : t) (e : Z) : Z :=
  let c := Z.of_N (coeff d) * 10 ^ (exp d - e) in
  if sign d then - c else c.

(** [a + b] *)
Definition add (a b : t) : t :=
  let e := Z.min (exp a) (exp b) in
  if (coeff a =? 0)%N && (coeff b =? 0)%N then
    fix_ (mk (sign a && sign b) 0 e)
  else
    let s := signed_at a e + signed_at b e in
    fix_ (mk (s <? 0) (Z.to_N (Z.abs s)) e).

(** [-a]: the negation of a zero is the positive zero. *)
Definition neg (a : t) : t :=
  if (coeff a =? 0)%N then fix_ (mk false 0 (exp a))
  else fix_ (mk (negb (sign a)) (coeff a) (exp a)).

(** The number of zero digits at the front of a digit string, and at its
    end. *)
Fixpoint leading_zeros (ds : str) : nat :=
  match ds with
  | c :: rest => if (c =? ZERO)%N then S (leading_zeros rest) else O
  | [] => O
  end.

Definition trailing_zeros (ds : str) : nat := leading_zeros (reverse ds).

(** [a.normalize()]: trailing zeros of the coefficient are moved into the
    exponent; a zero becomes [0] with exponent 0. *)
Definition normalize (a : t) : t :=
  let d := fix_ a in
  if (coeff d =? 0)%N then mk (sign d) 0 0
  else
    let z := trailing_zeros (digits (coeff d)) in
    mk (sign d) (coeff d / 10 ^ N.of_nat z) (exp d + Z.of_nat z).

(** Fixed-point notation of a value whose exponent is final: the digits
    left and right of the decimal point. *)
Definition fixed_point (d : t) : str :=
  let d := if (coeff d =? 0)%N && (0 <? exp d) then rescale d 0 else d in
  let ds := digits (coeff d) in
  let dotplace := exp d + len ds in
  let '(intpart, fracpart) :=
    if dotplace <? 0 then
      ([ZERO], repeat_char ZERO (- dotplace) ++ ds)
    else if len ds <? dotplace then
      (ds ++ repeat_char ZERO (dotplace - len ds), [])
    else
      (match take (Z.to_nat dotplace) ds with [] => [ZERO] | i => i end,
       drop (Z.to_nat dotplace) ds) in
  (if sign d then [MINUS] else [])
  ++ intpart
  ++ match fracpart with [] => [] | _ => DOT :: fracpart end.

(** [f"{a:f}"] *)
Definition format_f (a : t) : str := fixed_point a.

(** [f"{a:.2f}"] *)
Definition format_2f (a : t) : str := fixed_point (rescale a (-2)).

(** A decimal literal with [n] digits after the point: [of_Z 150 2] is
    [Decimal("1.50")]. *)
Definition of_Z (m : Z) (n : Z) : t := mk (m <? 0) (Z.to_N (Z.abs m)) (- n).

End Dec.

(** ** Formatting primitives *)

Definition fmt_qty (x : option Dec.t) : str :=
  match x with
  | None => []
  | Some x => Dec.format_f (Dec.normalize x)
  end.

Definition fmt_val (x : option Dec.t) : str :=
  match x with
  | None => []
  | Some x => Dec.format_2f x
  end.

(** ** The table renderer *)

(** The string literal of [_truncate_cell] as the source file has it: the
    three code points U+00E2, U+20AC, U+00A6. *)
Definition ELLIPSIS : str := [226; 8364; 166]%N.

Definition _truncate_cell (text : str) (max_width : Z) : str :=
  if len text <=? max_width then text
  else if max_width <=? 1 then slice_to text max_width
  else slice_to text (max_width - 1) ++ ELLIPSIS.

Definition soft_cap : Z := 28.

Definition numeric_indices : list nat :=
  [5; 6; 7; 8; 9; 10; 11; 12; 13; 14; 16; 17; 18]%nat.

Definition total_width (ws : list Z) : Z :=
  sum ws + 3 * (len ws - 1) + 2.

(** The floor of a column, [max(min(12, len(h)), 4)]. *)
Definition min_width (h : str) : Z := Z.max (Z.min 12 (len h)) 4.

(** [[row[col_idx] for row in prelim_rows]]: IndexError on a short row. *)
Definition col_items (prelim_rows : list (list str)) (col_idx : nat)
  : option (list str) :=
  mapM (fun row : list str => row !! col_idx) prelim_rows.

(** The width of every column before any shrinking. *)
Definition compute_widths (headers : list str) (prelim_rows : list (list str))
  : option (list Z) :=
  mapM (fun '(col_idx, header) =>
          items ← col_items prelim_rows col_idx;
          Some (max_of (len header) (map len items)))
       (enumerate headers).

(** The slack of column [i]. *)
Definition slack (widths min_widths : list Z) (i : nat) : Z :=
  widths !!! i - min_widths !!! i.

(** The [while over_by > 0] loop. [over_by] is positive when the loop is
    reached and goes down by one per round, so it is the recursion
    argument. *)
Fixpoint shrink (over_by : nat) (widths min_widths : list Z)
  : option (list Z) :=
  match over_by with
  | O => Some widths
  | S over_by' =>
      widest_idx ← max_key (slack widths min_widths) (range (length widths));
      if widths !!! widest_idx <=? min_widths !!! widest_idx then Some widths
      else shrink over_by'
             (<[widest_idx := widths !!! widest_idx - 1]> widths) min_widths
  end.

(** [[_truncate_cell(cell, widths[i]) for i, cell in enumerate(row)]]:
    IndexError on a row longer than the header. *)
Definition truncate_row (widths : list Z) (row : list str) : option (list str) :=
  mapM (fun '(i, cell) => w ← widths !! i; Some (_truncate_cell cell w))
       (enumerate row).

Definition fmt_cell (text : str) (width : Z) (right_align : bool) : str :=
  if right_align then rjust text width else ljust text width.

Definition SEP_BAR : str := lit " | ".
Definition SEP_CROSS : str := lit "-+-".

Definition header_line (headers : list str) (widths : list Z) : str :=
  [SPACE] ++
  join SEP_BAR
    (map (fun '(i, h) => fmt_cell h (widths !!! i) false) (enumerate headers)).

Definition sep_line (headers : list str) (widths : list Z) : str :=
  [SPACE] ++
  join SEP_CROSS
    (map (fun i => repeat_char DASH (widths !!! i)) (range (length headers))).

Definition is_numeric (i : nat) : bool := bool_decide (i ∈ numeric_indices).

Definition row_line (headers : list str) (widths : list Z) (row : list str)
  : str :=
  [SPACE] ++
  join SEP_BAR
    (map (fun i => fmt_cell (row !!! i) (widths !!! i) (is_numeric i))
         (range (length headers))).

(** The final column widths and the final cells: everything
    [_print_ascii_table] computes before it prints. *)
Definition layout (term_cols : Z) (headers : list str) (rows : list (list str))
  : option (list Z * list (list str)) :=
  let prelim_rows := map (map (fun c => _truncate_cell c soft_cap)) rows in
  widths ← compute_widths headers prelim_rows;
  if term_cols <? total_width widths then
    let over_by := total_width widths - term_cols in
    let min_widths := map min_width headers in
    widths' ← shrink (Z.to_nat over_by) widths min_widths;
    prelim_rows' ← mapM (truncate_row widths') prelim_rows;
    Some (widths', prelim_rows')
  else Some (widths, prelim_rows).

(** The lines [_print_ascii_table] prints, in order, for a terminal of
    [term_cols] columns. *)
Definition _print_ascii_table (term_cols : Z) (headers : list str)
    (rows : list (list str)) : option (list str) :=
  '(widths, prelim_rows) ← layout term_cols headers rows;
  Some (header_line headers widths
        :: sep_line headers widths
        :: map (row_line headers widths) prelim_rows).


(** ** The data of the tax engine *)

(** Modelled from the spec: [TrType] is declared in [bittytax.bt_types],
    which is not part of the sources. The five income classifications are
    the members [INCOME_TYPES] names; every other member is [OTHER] with its
    label. *)
Inductive TrType :=
  | MINING | STAKING | DIVIDEND | INTEREST | INCOME
  | OTHER (label : str).

Global Instance TrType_eq_dec : EqDecision TrType.
Proof. solve_decision. Defined.

(** [t_type.value] *)
Definition TrType_value (t : TrType) : str :=
  match t with
  | MINING => lit "Mining"
  | STAKING => lit "Staking"
  | DIVIDEND => lit "Dividend"
  | INTEREST => lit "Interest"
  | INCOME => lit "Income"
  | OTHER label => label
  end.

Definition INCOME_TYPES : list TrType :=
  [MINING; STAKING; DIVIDEND; INTEREST; INCOME].

(** Modelled from the spec: the role tag of an audit entry ([TrRecordPart] of
    [bittytax.bt_types]): the acquisition leg is BUY, the disposal leg SELL. *)
Inductive TrRecordPart := BUY | SELL | FEE.

Global Instance TrRecordPart_eq_dec : EqDecision TrRecordPart.
Proof. solve_decision. Defined.

(** [tr_part.name] and [tr_part.value] *)
Definition TrRecordPart_name (p : TrRecordPart) : str :=
  match p with BUY => lit "BUY" | SELL => lit "SELL" | FEE => lit "FEE" end.

Definition TrRecordPart_value (p : TrRecordPart) : str :=
  match p with BUY => lit "Buy" | SELL => lit "Sell" | FEE => lit "Fee" end.

(** Modelled from the spec: a leg of a transaction record ([tr.buy],
    [tr.sell]): asset, quantity, and the optional cost and fee value. *)
Record Leg := {
  asset : str;
  quantity : Dec.t;
  cost : option Dec.t;
  fee_value : option Dec.t;
}.

(** [t_row.tx_raw]: the transfer hash and the two endpoints, each optional. *)
Record TxRawData := {
  tx_hash : option str;
  tx_src : option str;
  tx_dest : option str;
}.

Record TransactionRow := { tx_raw : option TxRawData }.

(** Modelled from the spec: the transaction record. [tid] is the composite
    id, [timestamp] what [_format_timestamp()] returns. *)
Record TransactionRecord := {
  tid : option (list Z);
  t_type : TrType;
  buy : option Leg;
  sell : option Leg;
  timestamp : str;
  t_row : option TransactionRow;
}.

(** Modelled from the spec: one balance-affecting event of one asset. *)
Record AuditLogEntry := {
  t_record : TransactionRecord;
  tr_part : TrRecordPart;
  wallet : str;
  change : Dec.t;
  fee : Dec.t;
  balance : Dec.t;
  total : Dec.t;
}.

(** A capital gains event, with the originating record the patched
    constructor attaches ([getattr(s, "t_record", None)]). *)
Module TECG.
Record t := {
  proceeds : Dec.t;
  cost : Dec.t;
  fees : Dec.t;
  gain : Dec.t;
  t_record : option TransactionRecord;
}.
End TECG.

(** The four sums kept per transaction key. *)
Module PL.
Record t := { proceeds : Dec.t; cost : Dec.t; fees : Dec.t; gain : Dec.t }.

Definition zero : t :=
  {| proceeds := Dec.zero; cost := Dec.zero; fees := Dec.zero; gain := Dec.zero |}.

(** The four [+=] of the aggregation loop. *)
Definition add_event (agg : t) (te : TECG.t) : t :=
  {| proceeds := Dec.add (proceeds agg) (TECG.proceeds te);
     cost := Dec.add (cost agg) (TECG.cost te);
     fees := Dec.add (fees agg) (TECG.fees te);
     gain := Dec.add (gain agg) (TECG.gain te) |}.
End PL.

(** [ts(tr)] *)
Definition ts (tr : TransactionRecord) : str := timestamp tr.

(** Truth value of an optional string: [None] and the empty string are
    false. *)
Definition truthy (s : option str) : bool :=
  match s with
  | Some (_ :: _) => true
  | _ => false
  end.

(** [item if item else ""] for display; only used on truthy values. *)
Definition str_of (s : option str) : str := default [] s.

Definition _should_output_csv (force_csv force_table isatty : bool) : bool :=
  if force_csv then true
  else if force_table then false
  else negb isatty.

Definition ARROW : str := lit "->".

Definition fmt_tx (tr : TransactionRecord) : str :=
  match t_row tr ≫= tx_raw with
  | None => []
  | Some txr =>
      if truthy (tx_hash txr) then str_of (tx_hash txr)
      else
        let parts :=
          (if truthy (tx_src txr) then [str_of (tx_src txr)] else [])
          ++ (if truthy (tx_dest txr) then [str_of (tx_dest txr)] else []) in
        match parts with
        | [a; b] => a ++ ARROW ++ b
        | a :: _ => a
        | [] => []
        end
  end.

(** ** The correlation engine of [main] *)

(** [tr.tid[0]] under the test [if tr.tid]: the transaction key, when the
    record has a non-empty id. *)
Definition tid_key (tr : TransactionRecord) : option Z :=
  match tid tr with
  | Some (k :: _) => Some k
  | _ => None
  end.

(** [sorted(tax.tax_events)] *)
Definition sorted_years (tax_events : gmap Z (list TECG.t)) : list Z :=
  merge_sort Z.le (map fst (map_to_list tax_events)).

(** The events the aggregation loop visits, in the order it visits them.
    Modelled from the spec: [CG_DATA_INDIVIDUAL], the table of recognised
    tax years of [bittytax.tax], is not part of the sources; the loop only
    tests membership of the year in it. *)
Definition recognized_events (CG_DATA_INDIVIDUAL : gset Z)
    (tax_events : gmap Z (list TECG.t)) : list TECG.t :=
  flat_map (fun year => default [] (tax_events !! year))
    (filter (fun year => year ∈ CG_DATA_INDIVIDUAL) (sorted_years tax_events)).

(** The body of the inner loop: [setdefault] and the four [+=]. *)
Definition pl_step (tr_to_pl : gmap Z PL.t) (te : TECG.t) : gmap Z PL.t :=
  match TECG.t_record te with
  | None => tr_to_pl
  | Some tr =>
      match tid_key tr with
      | None => tr_to_pl
      | Some tr_key =>
          let agg := default PL.zero (tr_to_pl !! tr_key) in
          <[tr_key := PL.add_event agg te]> tr_to_pl
      end
  end.

Definition build_tr_to_pl (CG_DATA_INDIVIDUAL : gset Z)
    (tax_events : gmap Z (list TECG.t)) : gmap Z PL.t :=
  fold_left pl_step (recognized_events CG_DATA_INDIVIDUAL tax_events) ∅.

(** The audit log: a dict from asset to entries, in insertion order. *)
Abbreviation AuditLog := (list (str * list AuditLogEntry)).

(** [parts[e.tr_part.name] = e] under [setdefault(key, {})] *)
Definition entries_step (tr_to_entries : gmap Z (gmap str AuditLogEntry))
    (e : AuditLogEntry) : gmap Z (gmap str AuditLogEntry) :=
  match tid_key (t_record e) with
  | None => tr_to_entries
  | Some key =>
      let parts := default ∅ (tr_to_entries !! key) in
      <[key := <[TrRecordPart_name (tr_part e) := e]> parts]> tr_to_entries
  end.

(** All entries, in the order of [audit_log.items()]. *)
Definition all_entries (audit_log : AuditLog) : list AuditLogEntry :=
  flat_map snd audit_log.

Definition build_tr_to_entries (audit_log : AuditLog)
  : gmap Z (gmap str AuditLogEntry) :=
  fold_left entries_step (all_entries audit_log) ∅.

Definition headers : list str :=
  map lit
    ["asset"; "timestamp"; "record_type"; "part"; "wallet"; "change_qty";
     "fee_qty"; "balance_wallet_after"; "total_balance_after";
     "sell_proceeds_value_ccy"; "sell_cost_value_ccy"; "sell_fees_value_ccy";
     "sell_gain_value_ccy"; "income_amount_value_ccy"; "income_fees_value_ccy";
     "counter_asset"; "counter_change_qty"; "counter_balance_wallet_after";
     "counter_total_balance_after"; "tx"]%string.

Section row.
Variable tr_to_pl : gmap Z PL.t.
Variable tr_to_entries : gmap Z (gmap str AuditLogEntry).

(** The four disposal columns. *)
Definition sell_cols (e : AuditLogEntry) : list str :=
  let tr := t_record e in
  match tr_part e, tid_key tr with
  | SELL, Some tr_key =>
      match tr_to_pl !! tr_key with
      | Some pl =>
          [fmt_val (Some (PL.proceeds pl)); fmt_val (Some (PL.cost pl));
           fmt_val (Some (PL.fees pl)); fmt_val (Some (PL.gain pl))]
      | None => [[]; []; []; []]
      end
  | _, _ => [[]; []; []; []]
  end.

(** The two income columns. *)
Definition income_cols (e : AuditLogEntry) : list str :=
  let tr := t_record e in
  match tr_part e, buy tr with
  | BUY, Some b =>
      if bool_decide (t_type tr ∈ INCOME_TYPES) then
        [fmt_val (cost b); fmt_val (fee_value b)]
      else [[]; []]
  | _, _ => [[]; []]
  end.

(** The four counter columns: asset, change, wallet balance, total
    balance. *)
Definition counter_cols (e : AuditLogEntry) : list str :=
  let tr := t_record e in
  match tid_key tr with
  | None => [[]; []; []; []]
  | Some tr_key =>
      let parts := default ∅ (tr_to_entries !! tr_key) in
      match tr_part e with
      | BUY =>
          let '(counter_asset, counter_change_qty) :=
            match sell tr with
            | Some s => (asset s, fmt_qty (Some (Dec.neg (quantity s))))
            | None => ([], [])
            end in
          let '(counter_wallet_bal_after, counter_total_bal_after) :=
            match parts !! lit "SELL" with
            | Some p => (fmt_qty (Some (balance p)), fmt_qty (Some (total p)))
            | None => ([], [])
            end in
          [counter_asset; counter_change_qty;
           counter_wallet_bal_after; counter_total_bal_after]
      | SELL =>
          let '(counter_asset, counter_change_qty) :=
            match buy tr with
            | Some b => (asset b, fmt_qty (Some (quantity b)))
            | None => ([], [])
            end in
          let '(counter_wallet_bal_after, counter_total_bal_after) :=
            match parts !! lit "BUY" with
            | Some p => (fmt_qty (Some (balance p)), fmt_qty (Some (total p)))
            | None => ([], [])
            end in
          [counter_asset; counter_change_qty;
           counter_wallet_bal_after; counter_total_bal_after]
      | FEE => [[]; []; []; []]
      end
  end.

(** One output row: the body of the inner loop over the entries. *)
Definition make_row (asset : str) (e : AuditLogEntry) : list str :=
  let tr := t_record e in
  let record_type := TrType_value (t_type tr) in
  let row :=
    [asset; ts tr; record_type; TrRecordPart_value (tr_part e); wallet e;
     fmt_qty (Some (change e)); fmt_qty (Some (fee e));
     fmt_qty (Some (balance e)); fmt_qty (Some (total e))] in
  row ++ sell_cols e ++ income_cols e ++ counter_cols e ++ [fmt_tx tr].
End row.

(** Python's [<=] on strings: lexicographic on code points. *)
Fixpoint str_leb (a b : str) : bool :=
  match a, b with
  | [], _ => true
  | _ :: _, [] => false
  | x :: a', y :: b' =>
      if (x <? y)%N then true
      else if (y <? x)%N then false
      else str_leb a' b'
  end.

Definition str_le (a b : str) : Prop := str_leb a b = true.

Global Instance str_le_dec : RelDecision str_le :=
  fun a b => decide (str_leb a b = true).

(** [d[k]] on a dict kept as its items in insertion order. *)
Fixpoint dict_get {V} (d : list (str * V)) (k : str) : option V :=
  match d with
  | [] => None
  | (k', v) :: rest => if decide (k' = k) then Some v else dict_get rest k
  end.

(** [sorted(audit.audit_log)] *)
Definition sorted_assets (audit_log : AuditLog) : list str :=
  merge_sort str_le (map fst audit_log).

(** The rows of the two nested loops. [audit.audit_log[asset]] cannot fail,
    [asset] being a key of the dict. *)
Definition data_rows (tr_to_pl : gmap Z PL.t)
    (tr_to_entries : gmap Z (gmap str AuditLogEntry)) (audit_log : AuditLog)
  : list (list str) :=
  flat_map
    (fun asset =>
       map (make_row tr_to_pl tr_to_entries asset)
           (default [] (dict_get audit_log asset)))
    (sorted_assets audit_log).

(** What [main] writes to standard output: the rows handed to the CSV
    writer, the lines of the table, or nothing when the renderer raises. *)
Inductive Output :=
  | Csv (header : list str) (rows : list (list str))
  | Table (lines : list str)
  | Raised.

(** The rows [main] computes from the results of the tax engine. *)
Definition export_rows (CG_DATA_INDIVIDUAL : gset Z) (audit_log : AuditLog)
    (tax_events : gmap Z (list TECG.t)) : list (list str) :=
  let tr_to_pl := build_tr_to_pl CG_DATA_INDIVIDUAL tax_events in
  let tr_to_entries := build_tr_to_entries audit_log in
  data_rows tr_to_pl tr_to_entries audit_log.

(** [main], after the import and the tax computation. The flags, the state
    of standard output and the terminal width are inputs. *)
Definition main (force_csv force_table isatty : bool) (term_cols : Z)
    (CG_DATA_INDIVIDUAL : gset Z) (audit_log : AuditLog)
    (tax_events : gmap Z (list TECG.t)) : Output :=
  let rows := export_rows CG_DATA_INDIVIDUAL audit_log tax_events in
  if _should_output_csv force_csv force_table isatty then Csv headers rows
  else
    match _print_ascii_table term_cols headers rows with
    | Some lines => Table lines
    | None => Raised
    end.

(** ** The vocabulary of the properties *)

(** The column groups of an output row, by position in [headers]. *)
Definition sell_columns (row : list str) : list str := take 4 (drop 9 row).
Definition income_columns (row : list str) : list str := take 2 (drop 13 row).
Definition counter_columns (row : list str) : list str := take 4 (drop 15 row).

(** The role of the other leg of a two-sided transaction. *)
Definition opposite_part (p : TrRecordPart) : option TrRecordPart :=
  match p with
  | BUY => Some SELL
  | SELL => Some BUY
  | FEE => None
  end.

(** The other leg as the transaction record has it. *)
Definition opposite_leg (e : AuditLogEntry) : option Leg :=
  match tr_part e with
  | BUY => sell (t_record e)
  | SELL => buy (t_record e)
  | FEE => None
  end.

(** The other leg as the Transaction Entry Index has it. *)
Definition opposite_entry (tr_to_entries : gmap Z (gmap str AuditLogEntry))
    (e : AuditLogEntry) : option AuditLogEntry :=
  key ← tid_key (t_record e);
  p ← opposite_part (tr_part e);
  parts ← tr_to_entries !! key;
  parts !! TrRecordPart_name p.

(** The transaction key an event resolves to, if any. *)
Definition event_key (te : TECG.t) : option Z :=
  TECG.t_record te ≫= tid_key.

(** [sum(xs, Decimal(0))] *)
Definition dec_sum (xs : list Dec.t) : Dec.t := fold_left Dec.add xs Dec.zero.

(** The events of the recognised years, in the order of the mapping. *)
Definition events_of_recognized_years (CG_DATA_INDIVIDUAL : gset Z)
    (tax_events : gmap Z (list TECG.t)) : list TECG.t :=
  flat_map snd
    (filter (fun ye : Z * list TECG.t => ye.1 ∈ CG_DATA_INDIVIDUAL)
       (map_to_list tax_events)).

(** The audit entries with their asset, in the order of the audit log. *)
Definition log_pairs (audit_log : AuditLog) : list (str * AuditLogEntry) :=
  flat_map (fun ae : str * list AuditLogEntry => map (pair ae.1) ae.2) audit_log.

(** The audit entries with their asset, in the order [main] visits them. *)
Definition row_sources (audit_log : AuditLog) : list (str * AuditLogEntry) :=
  flat_map
    (fun asset => map (pair asset) (default [] (dict_get audit_log asset)))
    (sorted_assets audit_log).

(** The items of the audit log in the order [main] visits the assets. *)
Definition sorted_items (audit_log : AuditLog)
  : list (str * list AuditLogEntry) :=
  map (fun a => (a, default [] (dict_get audit_log a)))
      (sorted_assets audit_log).

(** The events among [evs] whose originating record resolves to key [k]. *)
Definition contributing (k : Z) (evs : list TECG.t) : list TECG.t :=
  filter (fun te => event_key te = Some k) evs.

(** The entries of the audit log with transaction key [k] and role [p], in
    the order of the audit log. *)
Definition legs (k : Z) (p : TrRecordPart) (es : list AuditLogEntry)
  : list AuditLogEntry :=
  filter (fun e => tid_key (t_record e) = Some k ∧ tr_part e = p) es.

(** The column widths before any shrinking, from the soft-capped cells. *)
Definition natural_widths (headers : list str) (rows : list (list str))
  : option (list Z) :=
  compute_widths headers (map (map (fun c => _truncate_cell c soft_cap)) rows).

(** A decimal digit, by code point. *)
Definition is_digit (c : N) : Prop := (48 <= c <= 57)%N.

(** ** Sample data *)

Module Sample.

Definition eth_leg : Leg :=
  {| asset := lit "ETH"; quantity := Dec.of_Z 15 1;
     cost := Some (Dec.of_Z 2500 0); fee_value := None |}.

Definition btc_leg : Leg :=
  {| asset := lit "BTC"; quantity := Dec.of_Z 1 2;
     cost := None; fee_value := None |}.

(** A trade of 0.01 BTC for 1.5 ETH. *)
Definition trade : TransactionRecord :=
  {| tid := Some [1; 0]; t_type := OTHER (lit "Trade");
     buy := Some eth_leg; sell := Some btc_leg;
     timestamp := lit "2023-01-01T00:00:00 UTC"; t_row := None |}.

Definition trade_buy : AuditLogEntry :=
  {| t_record := trade; tr_part := BUY; wallet := lit "MyWallet";
     change := Dec.of_Z 15 1; fee := Dec.zero;
     balance := Dec.of_Z 15 1; total := Dec.of_Z 15 1 |}.

Definition trade_sell : AuditLogEntry :=
  {| t_record := trade; tr_part := SELL; wallet := lit "MyWallet";
     change := Dec.of_Z (-1) 2; fee := Dec.zero;
     balance := Dec.of_Z 99 2; total := Dec.of_Z 199 2 |}.

Definition trade_log : AuditLog :=
  [(lit "ETH", [trade_buy]); (lit "BTC", [trade_sell])].

(** The same trade on a record without an id. *)
Definition trade_no_tid : TransactionRecord :=
  {| tid := None; t_type := OTHER (lit "Trade");
     buy := Some eth_leg; sell := Some btc_leg;
     timestamp := lit "2023-01-01T00:00:00 UTC"; t_row := None |}.

Definition buy_no_tid : AuditLogEntry :=
  {| t_record := trade_no_tid; tr_part := BUY; wallet := lit "MyWallet";
     change := Dec.of_Z 15 1; fee := Dec.zero;
     balance := Dec.of_Z 15 1; total := Dec.of_Z 15 1 |}.

(** A mining reward valued at 100.00 on which no fee was paid. *)
Definition mined_leg : Leg :=
  {| asset := lit "BTC"; quantity := Dec.of_Z 5 1;
     cost := Some (Dec.of_Z 10000 2); fee_value := None |}.

Definition mining : TransactionRecord :=
  {| tid := Some [2; 0]; t_type := MINING;
     buy := Some mined_leg; sell := None;
     timestamp := lit "2023-02-01T00:00:00 UTC"; t_row := None |}.

Definition mining_buy : AuditLogEntry :=
  {| t_record := mining; tr_part := BUY; wallet := lit "Pool";
     change := Dec.of_Z 5 1; fee := Dec.zero;
     balance := Dec.of_Z 5 1; total := Dec.of_Z 149 2 |}.

(** A sale of which only the acquisition side reached the audit log. *)
Definition buy_only_log : AuditLog := [(lit "ETH", [trade_buy])].

(** A deposit and a withdrawal filed under one transaction key: the audit
    log has a BUY and a SELL entry for key 3, the deposit record has no
    disposal leg. *)
Definition deposit : TransactionRecord :=
  {| tid := Some [3; 0]; t_type := OTHER (lit "Deposit");
     buy := Some eth_leg; sell := None;
     timestamp := lit "2023-03-01T00:00:00 UTC"; t_row := None |}.

Definition withdrawal : TransactionRecord :=
  {| tid := Some [3; 1]; t_type := OTHER (lit "Withdrawal");
     buy := None; sell := Some btc_leg;
     timestamp := lit "2023-03-01T00:00:00 UTC"; t_row := None |}.

Definition deposit_buy : AuditLogEntry :=
  {| t_record := deposit; tr_part := BUY; wallet := lit "MyWallet";
     change := Dec.of_Z 15 1; fee := Dec.zero;
     balance := Dec.of_Z 3 0; total := Dec.of_Z 3 0 |}.

Definition withdrawal_sell : AuditLogEntry :=
  {| t_record := withdrawal; tr_part := SELL; wallet := lit "MyWallet";
     change := Dec.of_Z (-1) 2; fee := Dec.zero;
     balance := Dec.of_Z 98 2; total := Dec.of_Z 198 2 |}.

Definition shared_key_log : AuditLog :=
  [(lit "ETH", [deposit_buy]); (lit "BTC", [withdrawal_sell])].

(** Two capital gains events of the trade (two lots) in 2023, one event
    without an originating record, and one event in a year that is not
    recognised. *)
Definition lot (p c f g : Z) (tr : option TransactionRecord) : TECG.t :=
  {| TECG.proceeds := Dec.of_Z p 2; TECG.cost := Dec.of_Z c 2;
     TECG.fees := Dec.of_Z f 2; TECG.gain := Dec.of_Z g 2;
     TECG.t_record := tr |}.

Definition tax_events : gmap Z (list TECG.t) :=
  {[ 2023 := [lot 150000 100000 500 49500 (Some trade);
              lot 100000 120000 250 (-20250) (Some trade);
              lot 7700 7000 0 700 None];
     1999 := [lot 1 1 1 (-1) (Some mining)] ]}.

Definition years : gset Z := {[ 2022; 2023 ]}.

(** A table of three columns and one row, for a terminal of 40 columns. *)
Definition narrow_headers : list str :=
  map lit ["asset"; "timestamp"; "wallet"]%string.

Definition narrow_row : list str :=
  map lit ["BTC"; "2023-01-01T00:00:00Z"; "MyWallet"]%string.

End Sample.

(** * Properties *)

(** ** Output selection *)

(** C9: an explicit flag decides the output whatever the state of standard
    output: with [--csv] CSV is emitted, with [--table] and no [--csv] the
    table; with no flag CSV is emitted exactly when standard output is not an
    interactive terminal. The table is therefore chosen only without
    [--csv], and then only under [--table] or on an interactive terminal.
    [main] emits CSV exactly when [_should_output_csv] says so. *)
Theorem output_selection (force_csv force_table isatty : bool) :
  (force_csv = true → _should_output_csv force_csv force_table isatty = true)
  ∧ (force_csv = false → force_table = true →
     _should_output_csv force_csv force_table isatty = false)
  ∧ (force_csv = false → force_table = false →
     _should_output_csv force_csv force_table isatty = negb isatty)
  ∧ (_should_output_csv force_csv force_table isatty = false →
     force_csv = false ∧ (force_table = true ∨ isatty = true))
  ∧ (∀ term_cols years audit_log tax_events,
       match main force_csv force_table isatty term_cols years audit_log
               tax_events with
       | Csv header rows =>
           _should_output_csv force_csv force_table isatty = true
           ∧ header = headers
           ∧ rows = export_rows years audit_log tax_events
       | Table _ | Raised =>
           _should_output_csv force_csv force_table isatty = false
       end).
Proof.
  split; [intros ->; reflexivity |].
  split; [intros -> ->; reflexivity |].
  split; [intros -> ->; reflexivity |].
  split.
  - destruct force_csv, force_table, isatty; simpl; intros; auto; discriminate.
  - intros term_cols years audit_log tax_events. unfold main.
    destruct (_should_output_csv force_csv force_table isatty); [done |].
    destruct (_print_ascii_table _ _ _); reflexivity.
Qed.

(** C10: with both [--csv] and [--table] set, CSV is selected, whatever the
    state of standard output: the CSV flag is tested first. *)
Theorem csv_flag_wins (isatty : bool) :
  _should_output_csv true true isatty = true.
Proof. reflexivity. Qed.

(** ** Cell truncation *)

Lemma len_nonneg {A} (x : list A) : 0 <= len x.
Proof. unfold len. lia. Qed.

Lemma len_app {A} (x y : list A) : len (x ++ y) = len x + len y.
Proof. unfold len. rewrite length_app. lia. Qed.

Lemma len_take {A} (x : list A) (n : Z) :
  0 <= n <= len x → len (take (Z.to_nat n) x) = n.
Proof. unfold len. intros H. rewrite length_take. lia. Qed.

(** A text that fits is returned unchanged. *)
Lemma truncate_fits (text : str) (w : Z) :
  len text <= w → _truncate_cell text w = text.
Proof.
  intros H. unfold _truncate_cell.
  destruct (Z.leb_spec (len text) w); [reflexivity | lia].
Qed.

(** At a width of at most one the text is cut to [text[:w]], a prefix, and
    nothing is appended. *)
Lemma truncate_hard_cut (text : str) (w : Z) :
  w < len text → w <= 1 →
  _truncate_cell text w = slice_to text w ∧ slice_to text w `prefix_of` text.
Proof.
  intros H1 H2. unfold _truncate_cell.
  destruct (Z.leb_spec (len text) w); [lia |].
  destruct (Z.leb_spec w 1); [| lia].
  split; [reflexivity |].
  unfold slice_to. destruct (w <? 0); apply prefix_take.
Qed.

(** At a width of two or more, a text that does not fit keeps its first
    [w - 1] characters and gets the marker; the marker being three
    characters long, the result is [w + 2] characters long. *)
Lemma truncate_marked (text : str) (w : Z) :
  w < len text → 2 <= w →
  _truncate_cell text w = take (Z.to_nat (w - 1)) text ++ ELLIPSIS
  ∧ len (_truncate_cell text w) = w + 2.
Proof.
  intros H1 H2. unfold _truncate_cell.
  destruct (Z.leb_spec (len text) w); [lia |].
  destruct (Z.leb_spec w 1); [lia |].
  unfold slice_to. destruct (Z.ltb_spec (w - 1) 0); [lia |].
  split; [reflexivity |].
  rewrite len_app, len_take by lia. unfold ELLIPSIS, len. simpl. lia.
Qed.

(** C2: truncating the six characters of "abcdef" to width 4 keeps "abc" and
    appends the marker of the source, which is three characters long: the
    result is six characters long, not four. *)
Theorem truncate_cell_exceeds_width :
  _truncate_cell (lit "abcdef") 4 = lit "abc" ++ ELLIPSIS
  ∧ len ELLIPSIS = 3
  ∧ len (_truncate_cell (lit "abcdef") 4) = 6.
Proof. repeat split. Qed.

(** ** Formatting never yields the empty string on a value *)

Lemma fixed_point_nonempty (d : Dec.t) : Dec.fixed_point d ≠ [].
Proof.
  unfold Dec.fixed_point.
  match goal with
  | |- context [if ?c then Dec.rescale d 0 else d] =>
      generalize (if c then Dec.rescale d 0 else d)
  end.
  intros d'.
  set (ds := Dec.digits (Dec.coeff d')).
  set (dotplace := Dec.exp d' + len ds).
  intros H. apply (f_equal length) in H. revert H.
  destruct (Z.ltb_spec dotplace 0).
  { rewrite !length_app. simpl. lia. }
  destruct (Z.ltb_spec (len ds) dotplace).
  { rewrite !length_app. unfold repeat_char. rewrite length_replicate.
    unfold len in *. lia. }
  rewrite !length_app.
  destruct (take (Z.to_nat dotplace) ds); simpl; lia.
Qed.

Lemma fmt_val_nonempty (x : Dec.t) : fmt_val (Some x) ≠ [].
Proof. apply fixed_point_nonempty. Qed.

Lemma fmt_qty_nonempty (x : Dec.t) : fmt_qty (Some x) ≠ [].
Proof. apply fixed_point_nonempty. Qed.

Lemma fmt_val_empty (x : option Dec.t) : fmt_val x = [] ↔ x = None.
Proof.
  destruct x as [x |]; split; try done.
  intros H. by apply fmt_val_nonempty in H.
Qed.

(** ** The column groups of a row *)

Section columns.
Variable tr_to_pl : gmap Z PL.t.
Variable tr_to_entries : gmap Z (gmap str AuditLogEntry).
Variable asset : str.
Variable e : AuditLogEntry.

Lemma sell_cols_length : length (sell_cols tr_to_pl e) = 4%nat.
Proof. unfold sell_cols. repeat case_match; reflexivity. Qed.

Lemma income_cols_length : length (income_cols e) = 2%nat.
Proof. unfold income_cols. repeat case_match; reflexivity. Qed.

Lemma counter_cols_length : length (counter_cols tr_to_entries e) = 4%nat.
Proof. unfold counter_cols. repeat case_match; reflexivity. Qed.

Lemma sell_columns_make_row :
  sell_columns (make_row tr_to_pl tr_to_entries asset e) = sell_cols tr_to_pl e.
Proof.
  unfold sell_columns, make_row. cbn [drop app].
  apply take_app_length'. symmetry. apply sell_cols_length.
Qed.

Lemma income_columns_make_row :
  income_columns (make_row tr_to_pl tr_to_entries asset e) = income_cols e.
Proof.
  unfold income_columns, make_row. cbn [drop app].
  pose proof sell_cols_length as Hs.
  destruct (sell_cols tr_to_pl e) as [| s1 [| s2 [| s3 [| s4 [| ? ?]]]]];
    try discriminate.
  cbn [drop app].
  apply take_app_length'. symmetry. apply income_cols_length.
Qed.

Lemma counter_columns_make_row :
  counter_columns (make_row tr_to_pl tr_to_entries asset e)
  = counter_cols tr_to_entries e.
Proof.
  unfold counter_columns, make_row. cbn [drop app].
  pose proof sell_cols_length as Hs. pose proof income_cols_length as Hi.
  destruct (sell_cols tr_to_pl e) as [| s1 [| s2 [| s3 [| s4 [| ? ?]]]]];
    try discriminate.
  destruct (income_cols e) as [| i1 [| i2 [| ? ?]]]; try discriminate.
  cbn [drop app].
  apply take_app_length'. symmetry. apply counter_cols_length.
Qed.

Lemma make_row_length :
  length (make_row tr_to_pl tr_to_entries asset e) = length headers.
Proof.
  unfold make_row. rewrite !length_app.
  rewrite sell_cols_length, income_cols_length, counter_cols_length.
  reflexivity.
Qed.
End columns.

(** ** Disposal columns *)

(** C7: when the entry's role is SELL and its transaction key has a disposal
    aggregate, the four disposal columns of its row are all non-empty; for
    every other entry all four are the empty string. *)
Theorem disposal_columns (tr_to_pl : gmap Z PL.t)
    (tr_to_entries : gmap Z (gmap str AuditLogEntry)) (asset : str)
    (e : AuditLogEntry) :
  let cols := sell_columns (make_row tr_to_pl tr_to_entries asset e) in
  let matched :=
    tr_part e = SELL
    ∧ ∃ k, tid_key (t_record e) = Some k ∧ is_Some (tr_to_pl !! k) in
  length cols = 4%nat
  ∧ (matched → Forall (fun c => c ≠ []) cols)
  ∧ (¬ matched → cols = [[]; []; []; []]).
Proof.
  intros cols matched. subst cols matched.
  rewrite sell_columns_make_row.
  split; [apply sell_cols_length |].
  unfold sell_cols. split.
  - intros [-> (k & -> & [pl ->])].
    repeat constructor; apply fmt_val_nonempty.
  - intros Hn.
    destruct (tr_part e) eqn:Hp; try reflexivity.
    destruct (tid_key (t_record e)) as [k |] eqn:Hk; try reflexivity.
    destruct (tr_to_pl !! k) as [pl |] eqn:Hpl; try reflexivity.
    exfalso. apply Hn. split; [reflexivity |]. exists k. rewrite Hpl. eauto.
Qed.

(** ** Income columns *)

(** C4, as stated, fails: a mining reward whose acquisition leg has cost data
    but no fee value has an empty [income_fees_value_ccy]. *)
Lemma income_fees_empty_without_fee_value :
  let e := Sample.mining_buy in
  tr_part e = BUY
  ∧ t_type (t_record e) ∈ INCOME_TYPES
  ∧ (∃ b c, buy (t_record e) = Some b ∧ cost b = Some c)
  ∧ income_columns (make_row ∅ ∅ (lit "BTC") e) = [lit "100.00"; []].
Proof.
  repeat split.
  - unfold INCOME_TYPES. set_solver.
  - eexists _, _. split; reflexivity.
Qed.

(** C4, amended: [income_amount_value_ccy] is non-empty exactly when the role
    is BUY, the record type is an income classification and the acquisition
    leg has cost data; [income_fees_value_ccy] is non-empty exactly when the
    role is BUY, the record type is an income classification and the
    acquisition leg has a fee value. A column that is not non-empty is the
    empty string. *)
Theorem income_columns_by_field (tr_to_pl : gmap Z PL.t)
    (tr_to_entries : gmap Z (gmap str AuditLogEntry)) (asset : str)
    (e : AuditLogEntry) :
  let tr := t_record e in
  let income_leg (field : Leg → option Dec.t) :=
    tr_part e = BUY ∧ t_type tr ∈ INCOME_TYPES
    ∧ ∃ b v, buy tr = Some b ∧ field b = Some v in
  ∃ amount fees,
    income_columns (make_row tr_to_pl tr_to_entries asset e) = [amount; fees]
    ∧ (amount ≠ [] ↔ income_leg cost)
    ∧ (fees ≠ [] ↔ income_leg fee_value).
Proof.
  intros tr income_leg. subst tr income_leg.
  rewrite income_columns_make_row. unfold income_cols.
  destruct (tr_part e) eqn:Hp;
    try (exists [], []; split; [reflexivity |];
         split; (split; [done | intros [? _]; discriminate])).
  destruct (buy (t_record e)) as [b |] eqn:Hb.
  2: { exists [], []. split; [reflexivity |].
       split; (split; [done | intros (_ & _ & ? & ? & ? & _); discriminate]). }
  case_bool_decide as Hin.
  2: { exists [], []. split; [reflexivity |].
       split; (split; [done | intros (_ & ? & _); contradiction]). }
  exists (fmt_val (cost b)), (fmt_val (fee_value b)).
  split; [reflexivity |].
  split; (split;
    [ intros Hne; repeat split; try done;
      exists b;
      match goal with |- ∃ v, _ ∧ ?f b = Some v =>
        destruct (f b) as [v |] eqn:Hf; [eauto | done] end
    | intros (_ & _ & b' & v & Hb' & Hv); simplify_eq;
      rewrite Hv; apply fmt_val_nonempty ]).
Qed.

(** ** The Transaction Entry Index *)

Lemma TrRecordPart_name_inj (p q : TrRecordPart) :
  TrRecordPart_name p = TrRecordPart_name q → p = q.
Proof. by destruct p, q. Qed.

(** The loop that builds the index, seen from one key and one role: a later
    entry of the same key and role replaces the earlier one. *)
Lemma fold_entries_step_lookup (es : list AuditLogEntry)
    (m : gmap Z (gmap str AuditLogEntry)) (k : Z) (p : TrRecordPart) :
  fold_left entries_step es m !! k ≫= (.!! TrRecordPart_name p)
  = match last (legs k p es) with
    | Some e => Some e
    | None => m !! k ≫= (.!! TrRecordPart_name p)
    end.
Proof.
  unfold legs. revert m. induction es as [| e es IH]; intros m; [done |].
  cbn [fold_left]. rewrite IH, filter_cons.
  destruct (decide (tid_key (t_record e) = Some k ∧ tr_part e = p))
    as [[Hkey <-] | Hno].
  - rewrite last_cons. destruct (last (filter _ es)); [done |].
    unfold entries_step. rewrite Hkey, lookup_insert_eq. simpl.
    by rewrite lookup_insert_eq.
  - destruct (last (filter _ es)); [done |].
    unfold entries_step.
    destruct (tid_key (t_record e)) as [key |] eqn:Hkey; [| done].
    destruct (decide (key = k)) as [-> | Hne];
      [| by rewrite lookup_insert_ne].
    rewrite lookup_insert_eq. simpl.
    rewrite lookup_insert_ne.
    + by destruct (m !! k).
    + intros Heq%TrRecordPart_name_inj. by apply Hno.
Qed.

(** X14: the Transaction Entry Index holds, per transaction key and role,
    the last entry of the audit log (in the order of its items) with that
    key and role, and nothing when there is none: a later entry replaces an
    earlier one, and entries without a transaction key are not indexed. *)
Lemma tr_to_entries_last_wins (audit_log : AuditLog) (k : Z)
    (p : TrRecordPart) :
  build_tr_to_entries audit_log !! k ≫= (.!! TrRecordPart_name p)
  = last (legs k p (all_entries audit_log)).
Proof.
  unfold build_tr_to_entries. rewrite fold_entries_step_lookup, lookup_empty.
  by destruct (last _).
Qed.

(** ** Counter-asset columns *)

(** C3, as stated, fails in both directions. With only the acquisition side
    of the trade in the audit log, the index has no opposite leg, yet
    [counter_asset] and [counter_change_qty] are filled from the transaction
    record. With a SELL entry in the index for the key of a record that has
    no disposal leg, the opposite leg exists in the index, yet
    [counter_asset] and [counter_change_qty] are empty. *)
Lemma counter_fields_not_decided_by_index :
  (let idx := build_tr_to_entries Sample.buy_only_log in
   let e := Sample.trade_buy in
   tr_part e = BUY
   ∧ opposite_entry idx e = None
   ∧ counter_columns (make_row ∅ idx (lit "ETH") e)
     = [lit "BTC"; lit "-0.01"; []; []])
  ∧ (let idx := build_tr_to_entries Sample.shared_key_log in
     let e := Sample.deposit_buy in
     tr_part e = BUY
     ∧ opposite_entry idx e = Some Sample.withdrawal_sell
     ∧ counter_columns (make_row ∅ idx (lit "ETH") e)
       = [[]; []; lit "0.98"; lit "1.98"]).
Proof. vm_compute. repeat split. Qed.

(** Settles [cell ≠ [] ↔ conditions] once the cell is either a formatted
    value or the empty string and the conditions are closed. *)
Local Ltac populated_iff :=
  split;
  [ intros Hne;
    first [ by destruct Hne
          | split_and!; first [ by left | by right | by eexists ] ]
  | intros Hc;
    first [ apply fixed_point_nonempty
          | destruct_and!;
            match goal with
            | H : is_Some None |- _ => by destruct H
            | H : _ ∨ _ |- _ => by destruct H
            end ] ].

(** C3, amended: [counter_change_qty] is non-empty exactly when the role is
    BUY or SELL, the record has a transaction key and the record has the
    opposite leg, and [counter_asset] is then that leg's asset (and empty
    otherwise); [counter_balance_wallet_after] and
    [counter_total_balance_after] are non-empty exactly when the role is BUY
    or SELL and the opposite leg is in the Transaction Entry Index under the
    entry's transaction key; for role FEE all four are empty. *)
Theorem counter_columns_populated (tr_to_pl : gmap Z PL.t)
    (tr_to_entries : gmap Z (gmap str AuditLogEntry)) (asset_key : str)
    (e : AuditLogEntry) :
  let tr := t_record e in
  let two_sided := tr_part e = BUY ∨ tr_part e = SELL in
  ∃ ca cq cw ct,
    counter_columns (make_row tr_to_pl tr_to_entries asset_key e)
    = [ca; cq; cw; ct]
    ∧ (cq ≠ [] ↔ two_sided ∧ is_Some (tid_key tr) ∧ is_Some (opposite_leg e))
    ∧ ca = match tid_key tr, opposite_leg e with
           | Some _, Some leg => asset leg
           | _, _ => []
           end
    ∧ (cw ≠ [] ↔ two_sided ∧ is_Some (opposite_entry tr_to_entries e))
    ∧ (ct ≠ [] ↔ two_sided ∧ is_Some (opposite_entry tr_to_entries e))
    ∧ (tr_part e = FEE → ca = [] ∧ cq = [] ∧ cw = [] ∧ ct = []).
Proof.
  intros tr two_sided. subst tr two_sided.
  rewrite counter_columns_make_row.
  unfold counter_cols, opposite_entry, opposite_leg.
  change (TrRecordPart_name SELL) with (lit "SELL").
  change (TrRecordPart_name BUY) with (lit "BUY").
  destruct (tid_key (t_record e)) as [k |] eqn:Hk; simpl;
    [| exists [], [], [], []; split_and!; solve [done | populated_iff]].
  destruct (tr_part e) eqn:Hp; simpl;
    [| | destruct (tr_to_entries !! k); simpl;
         exists [], [], [], []; split_and!; solve [done | populated_iff]].
  - destruct (sell (t_record e)) as [s |] eqn:Hs;
      destruct (tr_to_entries !! k) as [parts |] eqn:Hparts; simpl;
      rewrite ?lookup_empty;
      try destruct (parts !! lit "SELL") as [p |] eqn:Hl;
      eexists _, _, _, _; (split; [reflexivity |]);
      split_and!; solve [done | populated_iff].
  - destruct (buy (t_record e)) as [b |] eqn:Hb;
      destruct (tr_to_entries !! k) as [parts |] eqn:Hparts; simpl;
      rewrite ?lookup_empty;
      try destruct (parts !! lit "BUY") as [p |] eqn:Hl;
      eexists _, _, _, _; (split; [reflexivity |]);
      split_and!; solve [done | populated_iff].
Qed.

(** C8, as stated, fails: an acquisition entry whose record has a disposal
    leg but no transaction id gets four empty counter columns, not the
    disposal leg's asset and negated quantity. *)
Lemma counter_asset_empty_without_tid :
  let e := Sample.buy_no_tid in
  tr_part e = BUY
  ∧ sell (t_record e) = Some Sample.btc_leg
  ∧ asset Sample.btc_leg = lit "BTC"
  ∧ counter_columns
      (make_row ∅ (build_tr_to_entries [(lit "ETH", [e])]) (lit "ETH") e)
    = [[]; []; []; []].
Proof. vm_compute. repeat split. Qed.

(** C8, amended: for an entry whose record has a transaction key: with role
    BUY and a disposal leg on the record, [counter_asset] is the disposal
    leg's asset and [counter_change_qty] the formatted negation of its
    quantity; with role SELL and an acquisition leg on the record,
    [counter_asset] is the acquisition leg's asset and [counter_change_qty]
    its formatted quantity; and when the opposite leg is in the Transaction
    Entry Index, the two counter balance columns are its formatted wallet
    and total balances. *)
Theorem counter_columns_values (tr_to_pl : gmap Z PL.t)
    (tr_to_entries : gmap Z (gmap str AuditLogEntry)) (asset_key : str)
    (e : AuditLogEntry) (k : Z) :
  tid_key (t_record e) = Some k →
  ∃ ca cq cw ct,
    counter_columns (make_row tr_to_pl tr_to_entries asset_key e)
    = [ca; cq; cw; ct]
    ∧ (tr_part e = BUY → ∀ s, sell (t_record e) = Some s →
       ca = asset s ∧ cq = fmt_qty (Some (Dec.neg (quantity s))))
    ∧ (tr_part e = SELL → ∀ b, buy (t_record e) = Some b →
       ca = asset b ∧ cq = fmt_qty (Some (quantity b)))
    ∧ (∀ p, opposite_entry tr_to_entries e = Some p →
       cw = fmt_qty (Some (balance p)) ∧ ct = fmt_qty (Some (total p))).
Proof.
  intros Hk.
  rewrite counter_columns_make_row.
  unfold counter_cols, opposite_entry. rewrite Hk. simpl.
  change (TrRecordPart_name SELL) with (lit "SELL").
  change (TrRecordPart_name BUY) with (lit "BUY").
  destruct (tr_part e) eqn:Hp; simpl.
  - destruct (sell (t_record e)) as [s |] eqn:Hs;
      destruct (tr_to_entries !! k) as [parts |] eqn:Hparts; simpl;
      rewrite ?lookup_empty;
      try destruct (parts !! lit "SELL") as [p |] eqn:Hl;
      eexists _, _, _, _; (split; [reflexivity |]);
      split_and!; intros; simplify_eq; done.
  - destruct (buy (t_record e)) as [b |] eqn:Hb;
      destruct (tr_to_entries !! k) as [parts |] eqn:Hparts; simpl;
      rewrite ?lookup_empty;
      try destruct (parts !! lit "BUY") as [p |] eqn:Hl;
      eexists _, _, _, _; (split; [reflexivity |]);
      split_and!; intros; simplify_eq; done.
  - exists [], [], [], []. split; [reflexivity |].
    split_and!; intros; simplify_eq.
Qed.

(** The theorem at the acquisition side of the sample trade. *)
Lemma counter_columns_values_witness :
  tid_key (t_record Sample.trade_buy) = Some 1
  ∧ ∃ ca cq cw ct,
      counter_columns
        (make_row ∅ (build_tr_to_entries Sample.trade_log) (lit "ETH")
           Sample.trade_buy)
      = [ca; cq; cw; ct]
      ∧ (tr_part Sample.trade_buy = BUY →
         ∀ s, sell (t_record Sample.trade_buy) = Some s →
         ca = asset s ∧ cq = fmt_qty (Some (Dec.neg (quantity s))))
      ∧ (tr_part Sample.trade_buy = SELL →
         ∀ b, buy (t_record Sample.trade_buy) = Some b →
         ca = asset b ∧ cq = fmt_qty (Some (quantity b)))
      ∧ (∀ p,
           opposite_entry (build_tr_to_entries Sample.trade_log)
             Sample.trade_buy = Some p →
           cw = fmt_qty (Some (balance p)) ∧ ct = fmt_qty (Some (total p))).
Proof.
  split; [reflexivity |].
  apply (counter_columns_values ∅ (build_tr_to_entries Sample.trade_log)
           (lit "ETH") Sample.trade_buy 1).
  reflexivity.
Defined.

(** The scenario of the specification: 0.01 BTC traded for 1.5 ETH. *)
Example trade_counter_columns :
  map counter_columns
    (export_rows Sample.years Sample.trade_log Sample.tax_events)
  = [ [lit "ETH"; lit "1.5"; lit "1.5"; lit "1.5"];
      [lit "BTC"; lit "-0.01"; lit "0.99"; lit "1.99"] ].
Proof. vm_compute. reflexivity. Qed.

(** ** Row enumeration *)

Global Instance str_le_total : Total str_le.
Proof.
  intros a. unfold str_le.
  induction a as [| x a IH]; intros [| y b]; simpl; auto.
  destruct (N.ltb_spec x y), (N.ltb_spec y x); auto; lia.
Qed.

Global Instance str_le_trans : Transitive str_le.
Proof.
  intros a. unfold str_le.
  induction a as [| x a IH]; intros [| y b] [| z c]; simpl; auto;
    try discriminate.
  destruct (N.ltb_spec x y), (N.ltb_spec y x), (N.ltb_spec y z),
    (N.ltb_spec z y), (N.ltb_spec x z), (N.ltb_spec z x);
    try discriminate; try lia; auto.
  apply IH.
Qed.

Global Instance str_le_antisymm : AntiSymm (=) str_le.
Proof.
  intros a. unfold str_le.
  induction a as [| x a IH]; intros [| y b]; simpl; auto; try discriminate.
  destruct (N.ltb_spec x y), (N.ltb_spec y x); try discriminate; try lia.
  intros H1 H2. f_equal; [lia | by apply IH].
Qed.

(** On a dict (no key twice), the lookup of a key returns its item. *)
Lemma dict_get_item {V} (d : list (str * V)) (k : str) (v : V) :
  NoDup (map fst d) → (k, v) ∈ d → dict_get d k = Some v.
Proof.
  induction d as [| [k' v'] d IH]; simpl; intros Hnd Hin.
  - by apply elem_of_nil in Hin.
  - apply NoDup_cons in Hnd as [Hk' Hnd].
    apply elem_of_cons in Hin as [Heq | Hin].
    + simplify_eq. by rewrite decide_True.
    + destruct (decide (k' = k)) as [-> |]; [| by apply IH].
      exfalso. apply Hk'. apply (list_elem_of_fmap_2 fst _ (k, v)), Hin.
Qed.

Lemma sorted_items_keys (audit_log : AuditLog) :
  map fst (sorted_items audit_log) = sorted_assets audit_log.
Proof.
  unfold sorted_items. rewrite map_map. simpl. apply map_id.
Qed.

Lemma sorted_items_perm (audit_log : AuditLog) :
  NoDup (map fst audit_log) → sorted_items audit_log ≡ₚ audit_log.
Proof.
  intros Hnd. unfold sorted_items, sorted_assets.
  rewrite merge_sort_Permutation, map_map.
  rewrite (map_ext_in _ (fun x => x)); [by rewrite map_id |].
  intros [a es] Hin. apply list_elem_of_In in Hin. simpl.
  by rewrite (dict_get_item _ _ _ Hnd Hin).
Qed.

Lemma row_sources_sorted_items (audit_log : AuditLog) :
  row_sources audit_log = log_pairs (sorted_items audit_log).
Proof.
  unfold row_sources, log_pairs, sorted_items.
  induction (sorted_assets audit_log) as [| a l IH]; simpl; [done |].
  by rewrite IH.
Qed.

Lemma log_pairs_length (audit_log : AuditLog) :
  length (log_pairs audit_log) = length (all_entries audit_log).
Proof.
  unfold log_pairs, all_entries.
  induction audit_log as [| [a es] l IH]; simpl; [done |].
  rewrite !length_app, length_map, IH. done.
Qed.

Lemma log_pairs_perm (l1 l2 : AuditLog) :
  l1 ≡ₚ l2 → log_pairs l1 ≡ₚ log_pairs l2.
Proof.
  unfold log_pairs. induction 1; simpl.
  - done.
  - by f_equiv.
  - rewrite !app_assoc. f_equiv. apply Permutation_app_comm.
  - etrans; eauto.
Qed.

(** C6: on an audit log that is a dict (no asset twice), the rows [main]
    emits are the rows of the entries taken group by group, the groups (an
    asset with its entries in stored order) being the items of the audit log
    rearranged in ascending order of the asset; the entries so visited are
    the entries of the audit log, each as often as it occurs there, and there
    are as many rows as entries. *)
Theorem one_row_per_entry (years : gset Z) (audit_log : AuditLog)
    (tax_events : gmap Z (list TECG.t)) :
  NoDup (map fst audit_log) →
  let tr_to_pl := build_tr_to_pl years tax_events in
  let tr_to_entries := build_tr_to_entries audit_log in
  let rows := export_rows years audit_log tax_events in
  rows = map (fun ae => make_row tr_to_pl tr_to_entries ae.1 ae.2)
             (row_sources audit_log)
  ∧ (∃ groups,
       groups ≡ₚ audit_log
       ∧ StronglySorted str_le (map fst groups)
       ∧ row_sources audit_log = log_pairs groups)
  ∧ row_sources audit_log ≡ₚ log_pairs audit_log
  ∧ length rows = length (all_entries audit_log).
Proof.
  intros Hnd tr_to_pl tr_to_entries rows.
  assert (Hrows : rows = map (fun ae => make_row tr_to_pl tr_to_entries ae.1 ae.2)
                             (row_sources audit_log)).
  { subst rows. unfold export_rows, data_rows, row_sources.
    fold tr_to_pl tr_to_entries.
    induction (sorted_assets audit_log) as [| a l IH]; simpl; [done |].
    rewrite map_app, map_map, IH. done. }
  assert (Hperm : row_sources audit_log ≡ₚ log_pairs audit_log).
  { rewrite row_sources_sorted_items.
    by apply log_pairs_perm, sorted_items_perm. }
  split_and!.
  - exact Hrows.
  - exists (sorted_items audit_log). split_and!.
    + by apply sorted_items_perm.
    + rewrite sorted_items_keys. apply StronglySorted_merge_sort; apply _.
    + apply row_sources_sorted_items.
  - exact Hperm.
  - rewrite Hrows, length_map, Hperm. apply log_pairs_length.
Qed.

(** The theorem at the sample trade: ETH was inserted first, BTC comes
    first. *)
Lemma one_row_per_entry_witness :
  NoDup (map fst Sample.trade_log)
  ∧ (let tr_to_pl := build_tr_to_pl Sample.years Sample.tax_events in
     let tr_to_entries := build_tr_to_entries Sample.trade_log in
     let rows := export_rows Sample.years Sample.trade_log Sample.tax_events in
     rows = map (fun ae => make_row tr_to_pl tr_to_entries ae.1 ae.2)
                (row_sources Sample.trade_log)
     ∧ (∃ groups,
          groups ≡ₚ Sample.trade_log
          ∧ StronglySorted str_le (map fst groups)
          ∧ row_sources Sample.trade_log = log_pairs groups)
     ∧ row_sources Sample.trade_log ≡ₚ log_pairs Sample.trade_log
     ∧ length rows = length (all_entries Sample.trade_log)).
Proof.
  assert (Hnd : NoDup (map fst Sample.trade_log)).
  { apply (bool_decide_unpack _). vm_compute. exact I. }
  split; [exact Hnd |].
  exact (one_row_per_entry Sample.years Sample.trade_log Sample.tax_events Hnd).
Defined.

Example trade_row_order :
  row_sources Sample.trade_log
  = [(lit "BTC", Sample.trade_sell); (lit "ETH", Sample.trade_buy)].
Proof. vm_compute. reflexivity. Qed.

(** ** Disposal aggregation *)

(** An event that resolves to no transaction key leaves the mapping as it
    is. *)
Lemma pl_step_skip (m : gmap Z PL.t) (te : TECG.t) :
  event_key te = None → pl_step m te = m.
Proof.
  unfold event_key, pl_step.
  destruct (TECG.t_record te) as [tr |]; simpl; [| done].
  by intros ->.
Qed.

Lemma pl_step_key (m : gmap Z PL.t) (te : TECG.t) (k : Z) :
  event_key te = Some k →
  pl_step m te = <[k := PL.add_event (default PL.zero (m !! k)) te]> m.
Proof.
  unfold event_key, pl_step.
  destruct (TECG.t_record te) as [tr |]; simpl; [| done].
  by intros ->.
Qed.

(** The aggregation loop, seen from one key. *)
Lemma fold_pl_step_lookup (evs : list TECG.t) (m : gmap Z PL.t) (k : Z) :
  fold_left pl_step evs m !! k
  = match contributing k evs with
    | [] => m !! k
    | c => Some (fold_left PL.add_event c (default PL.zero (m !! k)))
    end.
Proof.
  unfold contributing.
  revert m. induction evs as [| te evs IH]; intros m; simpl; [done |].
  rewrite IH, filter_cons.
  destruct (event_key te) as [k' |] eqn:Hk.
  - rewrite (pl_step_key _ _ _ Hk).
    destruct (decide (k' = k)) as [-> | Hne].
    + rewrite decide_True by done. rewrite lookup_insert_eq. simpl.
      by destruct (filter _ evs).
    + rewrite decide_False by congruence.
      by rewrite lookup_insert_ne.
  - rewrite (pl_step_skip _ _ Hk). by rewrite decide_False.
Qed.

Lemma fold_add_event_fields (c : list TECG.t) (a : PL.t) :
  PL.proceeds (fold_left PL.add_event c a)
  = fold_left Dec.add (map TECG.proceeds c) (PL.proceeds a)
  ∧ PL.cost (fold_left PL.add_event c a)
    = fold_left Dec.add (map TECG.cost c) (PL.cost a)
  ∧ PL.fees (fold_left PL.add_event c a)
    = fold_left Dec.add (map TECG.fees c) (PL.fees a)
  ∧ PL.gain (fold_left PL.add_event c a)
    = fold_left Dec.add (map TECG.gain c) (PL.gain a).
Proof.
  revert a. induction c as [| te c IH]; intros a; simpl; [done |].
  apply IH.
Qed.

(** The loop visits the events of the recognised years, each once. *)
Lemma recognized_events_perm (years : gset Z)
    (tax_events : gmap Z (list TECG.t)) :
  recognized_events years tax_events
  ≡ₚ events_of_recognized_years years tax_events.
Proof.
  unfold recognized_events, events_of_recognized_years, sorted_years.
  rewrite merge_sort_Permutation.
  assert (Hl : Forall (fun ye : Z * list TECG.t =>
                         default [] (tax_events !! ye.1) = ye.2)
                      (map_to_list tax_events)).
  { apply Forall_forall. intros [y es] Hin.
    apply elem_of_map_to_list in Hin. simpl. by rewrite Hin. }
  induction Hl as [| [y es] l Hy Hl IH]; simpl; [done |].
  rewrite !filter_cons. simpl in *.
  destruct (decide (y ∈ years)); simpl; [| done].
  by rewrite Hy, IH.
Qed.

(** C5: the aggregation loop visits exactly the events of the recognised
    years; an event that resolves to no transaction key changes nothing; a
    key is in the mapping exactly when at least one visited event resolves
    to it, and then each of its four amounts is the Decimal sum, from
    [Decimal(0)] and in visiting order, of that amount over the visited
    events resolving to the key, each event counted once. *)
Theorem disposal_aggregate_sums (years : gset Z)
    (tax_events : gmap Z (list TECG.t)) (k : Z) :
  let visited := recognized_events years tax_events in
  let tr_to_pl := build_tr_to_pl years tax_events in
  visited ≡ₚ events_of_recognized_years years tax_events
  ∧ (∀ m te, event_key te = None → pl_step m te = m)
  ∧ (is_Some (tr_to_pl !! k) ↔ contributing k visited ≠ [])
  ∧ (∀ pl, tr_to_pl !! k = Some pl →
       PL.proceeds pl = dec_sum (map TECG.proceeds (contributing k visited))
       ∧ PL.cost pl = dec_sum (map TECG.cost (contributing k visited))
       ∧ PL.fees pl = dec_sum (map TECG.fees (contributing k visited))
       ∧ PL.gain pl = dec_sum (map TECG.gain (contributing k visited))).
Proof.
  intros visited tr_to_pl.
  assert (Hk : tr_to_pl !! k
               = match contributing k visited with
                 | [] => None
                 | c => Some (fold_left PL.add_event c PL.zero)
                 end).
  { subst tr_to_pl. unfold build_tr_to_pl. fold visited.
    rewrite fold_pl_step_lookup, lookup_empty. done. }
  split_and!.
  - apply recognized_events_perm.
  - apply pl_step_skip.
  - rewrite Hk.
    destruct (contributing k visited); split; intros H;
      solve [done | by destruct H | by eexists].
  - intros pl. rewrite Hk.
    destruct (contributing k visited) as [| te c] eqn:Hc; [done |].
    intros [= <-]. apply fold_add_event_fields.
Qed.

(** The sample: two lots of the trade are summed under key 1; the event
    without a record and the event of 1999 reach no aggregate. *)
Example trade_aggregate :
  map_to_list (build_tr_to_pl Sample.years Sample.tax_events)
  = [(1, {| PL.proceeds := Dec.of_Z 250000 2; PL.cost := Dec.of_Z 220000 2;
            PL.fees := Dec.of_Z 750 2; PL.gain := Dec.of_Z 29250 2 |})].
Proof. vm_compute. reflexivity. Qed.

(** ** The table renderer *)

(** *** The shrinking loop *)

Lemma fold_left_add_acc (l : list Z) (a : Z) :
  fold_left Z.add l a = a + fold_left Z.add l 0.
Proof.
  revert a. induction l as [| x l IH]; intros a; simpl; [lia |].
  rewrite (IH (a + x)), (IH (0 + x)). lia.
Qed.

Lemma sum_cons (x : Z) (l : list Z) : sum (x :: l) = x + sum l.
Proof. unfold sum. simpl. rewrite fold_left_add_acc. lia. Qed.

Lemma sum_insert (ws : list Z) (i : nat) (w v : Z) :
  ws !! i = Some w → sum (<[i := v]> ws) = sum ws - w + v.
Proof.
  revert i. induction ws as [| x ws IH]; intros [| i] Hi; simplify_eq/=.
  - rewrite !sum_cons. lia.
  - rewrite !sum_cons, (IH _ Hi). lia.
Qed.

Lemma total_width_length (ws ws' : list Z) (d : Z) :
  length ws' = length ws → sum ws' = sum ws - d →
  total_width ws' = total_width ws - d.
Proof. unfold total_width, len. intros -> ->. lia. Qed.

(** [max(xs, key=key)] returns an element of [xs] of maximal key. *)
Lemma max_key_spec (key : nat → Z) (xs : list nat) (i : nat) :
  max_key key xs = Some i → i ∈ xs ∧ ∀ j, j ∈ xs → key j <= key i.
Proof.
  destruct xs as [| x rest]; simpl; [done |]. intros [= <-].
  revert x. induction rest as [| y rest IH]; intros x; simpl.
  - split; [apply elem_of_cons; auto |].
    intros j Hj. apply list_elem_of_singleton in Hj as ->. lia.
  - destruct (IH (if key x <? key y then y else x)) as [Hin Hmax].
    assert (Hb : key x <= key (if key x <? key y then y else x)
                 ∧ key y <= key (if key x <? key y then y else x)).
    { destruct (Z.ltb_spec (key x) (key y)); lia. }
    assert (Hself : key (if key x <? key y then y else x)
                    <= key (fold_left
                              (fun best z => if key best <? key z then z else best)
                              rest (if key x <? key y then y else x))).
    { apply Hmax, elem_of_cons. auto. }
    split.
    + rewrite !elem_of_cons. apply elem_of_cons in Hin as [-> | Hin]; [| auto].
      destruct (key x <? key y); auto.
    + intros j Hj. rewrite !elem_of_cons in Hj.
      destruct Hj as [-> | [-> | Hj]]; [lia | lia |].
      apply Hmax, elem_of_cons. auto.
Qed.

Lemma max_key_is_Some (key : nat → Z) (xs : list nat) :
  xs ≠ [] → is_Some (max_key key xs).
Proof. destruct xs; [done | by eexists]. Qed.

(** What the loop leaves behind: as many columns, and either the whole
    excess removed or no column with slack left. *)
Lemma shrink_spec (over_by : nat) (widths min_widths widths' : list Z) :
  shrink over_by widths min_widths = Some widths' →
  length widths' = length widths
  ∧ (sum widths' = sum widths - Z.of_nat over_by
     ∨ ∀ i, (i < length widths)%nat → slack widths' min_widths i <= 0).
Proof.
  revert widths. induction over_by as [| n IH]; intros widths; simpl.
  { intros [= <-]. split; [done | left; lia]. }
  destruct (max_key _ _) as [i |] eqn:Hmax; simpl; [| done].
  apply max_key_spec in Hmax as [Hi Hmax].
  apply elem_of_seq in Hi.
  destruct (Z.leb_spec (widths !!! i) (min_widths !!! i)) as [Hle | Hgt].
  - intros [= <-]. split; [done |]. right. intros j Hj.
    etrans; [apply Hmax, elem_of_seq; lia |]. unfold slack. lia.
  - intros Hrec. apply IH in Hrec as [Hlen Hrec].
    rewrite length_insert in Hlen, Hrec. split; [done |].
    destruct Hrec as [Hsum | Hfloor]; [left | by right].
    rewrite Hsum.
    rewrite (sum_insert _ _ (widths !!! i))
      by (apply list_lookup_lookup_total_lt; lia).
    lia.
Qed.

(** The loop keeps non-negative widths non-negative: a column is narrowed
    only while it is wider than its floor. *)
Lemma shrink_nonneg (over_by : nat) (widths min_widths widths' : list Z) :
  length min_widths = length widths →
  Forall (fun m => 0 <= m) min_widths →
  Forall (fun w => 0 <= w) widths →
  shrink over_by widths min_widths = Some widths' →
  Forall (fun w => 0 <= w) widths'.
Proof.
  intros Hlen Hmin. revert widths Hlen.
  induction over_by as [| n IH]; intros widths Hlen Hw; simpl.
  { by intros [= <-]. }
  destruct (max_key _ _) as [i |] eqn:Hmax; simpl; [| done].
  apply max_key_spec in Hmax as [Hi _]. apply elem_of_seq in Hi.
  destruct (Z.leb_spec (widths !!! i) (min_widths !!! i)) as [Hle | Hgt].
  - by intros [= <-].
  - apply IH; [by rewrite length_insert |].
    apply Forall_insert; [done |].
    assert (0 <= min_widths !!! i); [| lia].
    apply (Forall_lookup_total_1 (fun m => 0 <= m)); [done | lia].
Qed.

(** The loop raises only on a table without columns. *)
Lemma shrink_is_Some (over_by : nat) (widths min_widths : list Z) :
  widths ≠ [] → is_Some (shrink over_by widths min_widths).
Proof.
  revert widths. induction over_by as [| n IH]; intros widths Hne; simpl.
  { by eexists. }
  destruct (max_key_is_Some (slack widths min_widths) (range (length widths)))
    as [i ->]; simpl.
  { destruct widths; [done | discriminate]. }
  destruct (_ <=? _); [by eexists |].
  apply IH. intros Hnil. apply (f_equal length) in Hnil.
  rewrite length_insert in Hnil. by destruct widths.
Qed.

(** *** Column widths and the separator line *)

Lemma max_of_ge (x : Z) (xs : list Z) : x <= max_of x xs.
Proof.
  unfold max_of. revert x. induction xs as [| y xs IH]; intros x; simpl; [lia |].
  etrans; [| apply IH]. lia.
Qed.

Lemma enumerate_lookup {A} (xs : list A) (i : nat) (x : A) :
  (i, x) ∈ enumerate xs → xs !! i = Some x.
Proof.
  unfold enumerate. intros Hin.
  apply list_elem_of_lookup_1 in Hin as [j Hj].
  rewrite list_lookup_imap in Hj.
  destruct (xs !! j) eqn:Hx; simplify_eq/=. done.
Qed.

(** The widths before shrinking: one per header, none below its header. *)
Lemma compute_widths_spec (hs : list str) (prelim_rows : list (list str))
    (ws : list Z) :
  compute_widths hs prelim_rows = Some ws →
  length ws = length hs ∧ Forall (fun w => 0 <= w) ws.
Proof.
  unfold compute_widths. intros Hm. split.
  - apply length_mapM in Hm. unfold enumerate in Hm.
    by rewrite length_imap in Hm.
  - apply mapM_Some_1 in Hm.
    induction Hm as [| [i h] w l k Hw Hm IH]; constructor; [| done].
    destruct (col_items prelim_rows i); simplify_eq/=.
    etrans; [apply (len_nonneg h) | apply max_of_ge].
Qed.

Lemma min_width_nonneg (hs : list str) :
  Forall (fun m => 0 <= m) (map min_width hs).
Proof.
  induction hs; constructor; [unfold min_width; lia | done].
Qed.

(** Where [layout] returns, there is one width per header, no width is
    negative, and the table is within the terminal or no column has slack
    left. *)
Lemma layout_spec (term_cols : Z) (hs : list str) (rows : list (list str))
    (ws : list Z) (cells : list (list str)) :
  layout term_cols hs rows = Some (ws, cells) →
  length ws = length hs
  ∧ Forall (fun w => 0 <= w) ws
  ∧ (total_width ws <= term_cols
     ∨ ∀ i, (i < length hs)%nat → slack ws (map min_width hs) i <= 0).
Proof.
  unfold layout.
  destruct (compute_widths hs _) as [ws0 |] eqn:Hw; simpl; [| done].
  apply compute_widths_spec in Hw as [Hlen Hnn].
  destruct (Z.ltb_spec term_cols (total_width ws0)) as [Hover | Hfit].
  2: { intros [= <- <-]. split_and!; [done | done | by left]. }
  destruct (shrink _ ws0 _) as [ws1 |] eqn:Hs; simpl; [| done].
  destruct (mapM _ _) as [cells1 |]; simpl; [| done].
  intros [= <- <-].
  pose proof (shrink_nonneg _ _ _ _
                ltac:(by rewrite length_map) (min_width_nonneg hs) Hnn Hs).
  apply shrink_spec in Hs as [Hlen1 Hs].
  split_and!; [congruence | done |].
  destruct Hs as [Hsum | Hfloor].
  - left. rewrite (total_width_length ws0 ws1 _ Hlen1 Hsum). lia.
  - right. intros i Hi. apply Hfloor. lia.
Qed.

Lemma len_join (sep : str) (parts : list str) :
  len (join sep parts)
  = sum (map len parts) + len sep * Z.max 0 (len parts - 1).
Proof.
  induction parts as [| p rest IH]; [unfold sum, len; simpl; lia |].
  destruct rest as [| q rest].
  - simpl. rewrite sum_cons. unfold sum, len. simpl. lia.
  - change (join sep (p :: q :: rest)) with (p ++ sep ++ join sep (q :: rest)).
    rewrite !len_app, IH.
    change (map len (p :: q :: rest)) with (len p :: map len (q :: rest)).
    rewrite sum_cons. unfold len. simpl length. lia.
Qed.

Lemma lookup_total_range (ws : list Z) :
  map (fun i => ws !!! i) (range (length ws)) = ws.
Proof.
  unfold range. induction ws as [| w ws IH]; [reflexivity |].
  simpl. f_equal. rewrite <- seq_shift, map_map. exact IH.
Qed.

(** The separator line is as long as the table is wide, less the trailing
    space the width counts. *)
Lemma len_sep_line (hs : list str) (ws : list Z) :
  length ws = length hs → hs ≠ [] → Forall (fun w => 0 <= w) ws →
  len (sep_line hs ws) = total_width ws - 1.
Proof.
  intros Hlen Hne Hnn. unfold sep_line, total_width.
  rewrite len_app, len_join, map_map.
  rewrite (map_ext_in _ (fun i => ws !!! i)).
  - rewrite <- Hlen, lookup_total_range.
    unfold len, range. rewrite length_map, length_seq. simpl.
    destruct ws; [by destruct hs | simpl length; lia].
  - intros i Hi. apply in_seq in Hi.
    unfold repeat_char, len. rewrite length_replicate.
    assert (0 <= ws !!! i); [| lia].
    apply (Forall_lookup_total_1 (fun w => 0 <= w)); [done | lia].
Qed.

(** X7: where the renderer returns on a table with columns, the separator
    line is shorter than the terminal is wide unless no column has slack
    left: the width negotiation does what it is meant to do for the widths
    themselves. *)
Lemma separator_line_fits (term_cols : Z) (hs : list str)
    (rows : list (list str)) (ws : list Z) (cells : list (list str)) :
  layout term_cols hs rows = Some (ws, cells) → hs ≠ [] →
  len (sep_line hs ws) < term_cols
  ∨ ∀ i, (i < length hs)%nat → slack ws (map min_width hs) i <= 0.
Proof.
  intros Hl Hne. apply layout_spec in Hl as (Hlen & Hnn & [Hfit | Hfloor]).
  - left. rewrite len_sep_line by done. lia.
  - by right.
Qed.

(** *** The renderer returns on every table [main] gives it *)

Lemma truncate_row_is_Some (ws : list Z) (row : list str) :
  (length row <= length ws)%nat → is_Some (truncate_row ws row).
Proof.
  intros Hlen. unfold truncate_row. apply mapM_is_Some_2, Forall_forall.
  intros [i cell] Hin. apply enumerate_lookup in Hin.
  apply lookup_lt_Some in Hin.
  destruct (lookup_lt_is_Some_2 ws i) as [w Hw]; [lia |].
  simpl. rewrite Hw. by eexists.
Qed.

Lemma compute_widths_is_Some (hs : list str) (prelim_rows : list (list str)) :
  Forall (fun row => length row = length hs) prelim_rows →
  is_Some (compute_widths hs prelim_rows).
Proof.
  intros Hrows. unfold compute_widths. apply mapM_is_Some_2, Forall_forall.
  intros [i h] Hin. apply enumerate_lookup, lookup_lt_Some in Hin. simpl.
  assert (Hc : is_Some (col_items prelim_rows i)).
  { unfold col_items. apply mapM_is_Some_2.
    eapply Forall_impl; [exact Hrows |]. intros row Hrow. simpl in *.
    apply lookup_lt_is_Some_2. lia. }
  destruct Hc as [items ->]. by eexists.
Qed.

(** On a table with at least one column whose rows all have one cell per
    header, the renderer raises nothing. *)
Lemma print_ascii_table_is_Some (term_cols : Z) (hs : list str)
    (rows : list (list str)) :
  hs ≠ [] → Forall (fun row => length row = length hs) rows →
  is_Some (_print_ascii_table term_cols hs rows).
Proof.
  intros Hne Hrows. unfold _print_ascii_table.
  assert (Hl : is_Some (layout term_cols hs rows)).
  { unfold layout.
    set (prelim := map (map (fun c => _truncate_cell c soft_cap)) rows).
    assert (Hprelim : Forall (fun row => length row = length hs) prelim).
    { subst prelim. apply Forall_forall. intros row Hin.
      apply list_elem_of_In, in_map_iff in Hin as (row0 & <- & Hin0).
      rewrite length_map.
      apply list_elem_of_In in Hin0.
      by apply (proj1 (Forall_forall _ _) Hrows). }
    destruct (compute_widths_is_Some hs prelim Hprelim) as [ws Hws].
    rewrite Hws. simpl.
    apply compute_widths_spec in Hws as [Hlen _].
    destruct (term_cols <? total_width ws); [| by eexists].
    destruct (shrink_is_Some (Z.to_nat (total_width ws - term_cols)) ws
                (map min_width hs)) as [ws1 Hs].
    { intros ->. by destruct hs. }
    rewrite Hs. simpl. apply shrink_spec in Hs as [Hlen1 _].
    assert (Hc : is_Some (mapM (truncate_row ws1) prelim)).
    { apply mapM_is_Some_2. eapply Forall_impl; [exact Hprelim |].
      intros row Hrow. simpl in Hrow. apply truncate_row_is_Some. lia. }
    destruct Hc as [cells ->]. by eexists. }
  destruct Hl as [[ws cells] ->]. by eexists.
Qed.

(** X12: [main] never makes the renderer raise: whatever the audit log, the
    tax events, the flags and the terminal width, it emits CSV rows or the
    lines of a table. *)
Lemma main_renders (force_csv force_table isatty : bool) (term_cols : Z)
    (years : gset Z) (audit_log : AuditLog) (tax_events : gmap Z (list TECG.t)) :
  main force_csv force_table isatty term_cols years audit_log tax_events
  ≠ Raised.
Proof.
  unfold main. destruct (_should_output_csv _ _ _); [done |].
  destruct (print_ascii_table_is_Some term_cols headers
              (export_rows years audit_log tax_events)) as [lines ->];
    [done | | done].
  unfold export_rows, data_rows. apply Forall_forall. intros row Hin.
  apply list_elem_of_In, in_flat_map in Hin as (a & _ & Hin).
  apply in_map_iff in Hin as (e & <- & _). apply make_row_length.
Qed.

(** *** The lines that do not fit *)

(** C1: on a terminal of 300 columns, the table of the two rows exported for
    the sample trade has a header line of 366 characters and data lines of
    301 characters, while the "timestamp" column is still three characters
    above its floor of 9: header cells are never cut to the column width,
    and a cut data cell is two characters wider than its column. Only the
    separator line, 299 characters, is within the terminal. *)
Theorem table_lines_exceed_terminal :
  let rows := export_rows Sample.years Sample.trade_log Sample.tax_events in
  ∃ widths cells,
    layout 300 headers rows = Some (widths, cells)
    ∧ widths !! 1%nat = Some 12
    ∧ min_width <$> headers !! 1%nat = Some 9
    ∧ map len <$> _print_ascii_table 300 headers rows
      = Some [366; 299; 301; 301].
Proof. vm_compute. eexists _, _. repeat split. Qed.

(** The scenario of the specification for a terminal of 40 columns: the
    "timestamp" column gives up one character, its cell is cut to 18
    characters and the marker, and the data line is 41 characters long
    while that column is still ten characters above its floor. *)
Example narrow_terminal_scenario :
  layout 40 Sample.narrow_headers [Sample.narrow_row]
  = Some ([5; 19; 8],
          [[lit "BTC"; lit "2023-01-01T00:00:0" ++ ELLIPSIS; lit "MyWallet"]])
  ∧ map min_width Sample.narrow_headers = [5; 9; 6]
  ∧ map len <$> _print_ascii_table 40 Sample.narrow_headers [Sample.narrow_row]
    = Some [39; 39; 41].
Proof. vm_compute. repeat split. Qed.

(** * Further properties *)

(** ** Cells *)

(** X1: at a width that is not negative, the result of [_truncate_cell] is at
    most two characters wider than the width, and within the width when the
    text fits or the width is at most one. *)
Theorem truncate_cell_length_bound (text : str) (w : Z) :
  0 <= w →
  len (_truncate_cell text w) <= w + 2
  ∧ (len text <= w ∨ w <= 1 → len (_truncate_cell text w) <= w).
Proof.
  intros Hw.
  destruct (Z.le_gt_cases (len text) w) as [Hfit | Hlong].
  { rewrite truncate_fits by done. lia. }
  destruct (Z.le_gt_cases w 1) as [Hcut | Hmark].
  - destruct (truncate_hard_cut text w) as [-> _]; [lia | lia |].
    unfold slice_to. destruct (Z.ltb_spec w 0); [lia |].
    rewrite len_take by lia. lia.
  - destruct (truncate_marked text w) as [_ ->]; lia.
Qed.

Lemma truncate_cell_length_bound_witness :
  0 <= 4
  ∧ len (_truncate_cell (lit "abcdef") 4) <= 4 + 2
  ∧ (len (lit "abcdef") <= 4 ∨ 4 <= 1 →
     len (_truncate_cell (lit "abcdef") 4) <= 4).
Proof.
  split; [lia |]. apply (truncate_cell_length_bound (lit "abcdef") 4). lia.
Defined.

(** X2: cutting a cell twice to the same non-negative width is cutting it
    once: the cells the renderer cuts again after the soft cap are stable. *)
Theorem truncate_cell_idempotent (text : str) (w : Z) :
  0 <= w →
  _truncate_cell (_truncate_cell text w) w = _truncate_cell text w.
Proof.
  intros Hw.
  destruct (Z.le_gt_cases (len text) w) as [Hfit | Hlong].
  { rewrite (truncate_fits text w) by done. by apply truncate_fits. }
  destruct (Z.le_gt_cases w 1) as [Hcut | Hmark].
  - destruct (truncate_hard_cut text w) as [-> _]; [lia | lia |].
    apply truncate_fits. unfold slice_to.
    destruct (Z.ltb_spec w 0); [lia |]. rewrite len_take by lia. lia.
  - destruct (truncate_marked text w) as [Heq Hlen]; [lia | lia |].
    destruct (truncate_marked (_truncate_cell text w) w) as [-> _]; [lia | lia |].
    rewrite Heq. f_equal.
    rewrite take_app_le by (rewrite length_take; unfold len in *; lia).
    rewrite take_take. f_equal. lia.
Qed.

Lemma truncate_cell_idempotent_witness :
  0 <= 4
  ∧ _truncate_cell (_truncate_cell (lit "abcdef") 4) 4
    = _truncate_cell (lit "abcdef") 4.
Proof.
  split; [lia |]. apply (truncate_cell_idempotent (lit "abcdef") 4). lia.
Defined.

(** X3: for a final width between 0 and the soft cap of 28, cutting the
    soft-capped cell gives what cutting the original cell gives: the
    preliminary cap changes no final cell of such a column. *)
Theorem soft_cap_then_width (cell : str) (w : Z) :
  0 <= w <= soft_cap →
  _truncate_cell (_truncate_cell cell soft_cap) w = _truncate_cell cell w.
Proof.
  unfold soft_cap. intros Hw.
  destruct (Z.le_gt_cases (len cell) 28) as [Hfit | Hlong].
  { by rewrite (truncate_fits cell 28) by done. }
  destruct (truncate_marked cell 28) as [Hcap Hcaplen]; [lia | lia |].
  destruct (Z.le_gt_cases w 1) as [Hcut | Hmark].
  - destruct (truncate_hard_cut (_truncate_cell cell 28) w) as [-> _];
      [lia | lia |].
    destruct (truncate_hard_cut cell w) as [-> _]; [lia | lia |].
    unfold slice_to. destruct (Z.ltb_spec w 0); [lia |].
    rewrite Hcap.
    rewrite take_app_le by (rewrite length_take; unfold len in *; lia).
    rewrite take_take. f_equal. lia.
  - destruct (truncate_marked (_truncate_cell cell 28) w) as [-> _];
      [lia | lia |].
    destruct (truncate_marked cell w) as [-> _]; [lia | lia |].
    rewrite Hcap. f_equal.
    rewrite take_app_le by (rewrite length_take; unfold len in *; lia).
    rewrite take_take. f_equal. lia.
Qed.

Lemma soft_cap_then_width_witness :
  0 <= 12 <= soft_cap
  ∧ _truncate_cell
      (_truncate_cell (lit "0123456789012345678901234567890123456789") soft_cap)
      12
    = _truncate_cell (lit "0123456789012345678901234567890123456789") 12.
Proof.
  split; [unfold soft_cap; lia |].
  apply (soft_cap_then_width
           (lit "0123456789012345678901234567890123456789") 12).
  unfold soft_cap. lia.
Defined.

Lemma len_repeat_char (c : N) (n : Z) : len (repeat_char c n) = Z.max 0 n.
Proof. unfold len, repeat_char. rewrite length_replicate. lia. Qed.

Lemma len_fmt_cell (text : str) (width : Z) (right_align : bool) :
  len (fmt_cell text width right_align) = Z.max (len text) width.
Proof.
  unfold fmt_cell, ljust, rjust.
  destruct right_align; rewrite len_app, len_repeat_char; lia.
Qed.

(** X4: [fmt_cell] pads and never cuts: the formatted cell is as long as the
    longer of the text and the width, and the text is its beginning (left
    aligned) or its end (right aligned). *)
Theorem fmt_cell_pads (text : str) (width : Z) (right_align : bool) :
  len (fmt_cell text width right_align) = Z.max (len text) width
  ∧ (if right_align
     then text `suffix_of` fmt_cell text width right_align
     else text `prefix_of` fmt_cell text width right_align).
Proof.
  split; [apply len_fmt_cell |].
  unfold fmt_cell, ljust, rjust. destruct right_align.
  - by apply suffix_app_r.
  - by apply prefix_app_r.
Qed.

(** ** The shrinking loop, column by column *)

Lemma max_key_split (key : nat → Z) (xs : list nat) (i : nat) :
  max_key key xs = Some i →
  ∃ pre post,
    xs = pre ++ i :: post
    ∧ Forall (fun j => key j < key i) pre
    ∧ Forall (fun j => key j <= key i) post.
Proof.
  destruct xs as [| x rest]; simpl; [done |]. intros [= <-].
  revert x. induction rest as [| y rest IH]; intros x; simpl.
  { exists [], []. by split_and!. }
  destruct (IH (if key x <? key y then y else x)) as (pre & post & Heq & Hpre & Hpost).
  set (r := fold_left _ rest _) in *. clearbody r.
  destruct (Z.ltb_spec (key x) (key y)) as [Hlt | Hge].
  - exists (x :: pre), post. rewrite Heq. split_and!; [done | | done].
    constructor; [| done].
    destruct pre as [| p pre]; simplify_eq/=; [done |].
    apply Forall_cons in Hpre as [Hp _]. lia.
  - destruct pre as [| p pre]; simplify_eq/=.
    + exists [], (y :: post). split_and!; [done | done |].
      constructor; [lia | done].
    + exists (p :: y :: pre), post. split_and!; [done | | done].
      apply Forall_cons in Hpre as [Hp Hpre].
      constructor; [done |]. constructor; [lia | done].
Qed.

(** X5: the column the loop narrows is the first of those with the greatest
    slack: no column has more slack, and every column before it has less. *)
Theorem widest_column_first (widths min_widths : list Z) (widest_idx : nat) :
  max_key (slack widths min_widths) (range (length widths)) = Some widest_idx →
  (widest_idx < length widths)%nat
  ∧ (∀ j, (j < length widths)%nat →
       slack widths min_widths j <= slack widths min_widths widest_idx)
  ∧ (∀ j, (j < widest_idx)%nat →
       slack widths min_widths j < slack widths min_widths widest_idx).
Proof.
  intros Hmax.
  destruct (max_key_spec _ _ _ Hmax) as [Hin Hle].
  apply elem_of_seq in Hin.
  split_and!; [lia | |].
  - intros j Hj. apply Hle, elem_of_seq. lia.
  - apply max_key_split in Hmax as (pre & post & Heq & Hpre & _).
    unfold range in Heq.
    assert (Hi : widest_idx = length pre).
    { pose proof (list_lookup_middle pre post widest_idx (length pre) eq_refl)
        as Hmid.
      rewrite <- Heq in Hmid. apply lookup_seq in Hmid. lia. }
    intros j Hj.
    assert (Hjpre : pre !! j = Some j).
    { rewrite <- (lookup_app_l pre (widest_idx :: post)) by lia.
      rewrite <- Heq. rewrite lookup_seq_lt by lia. done. }
    apply (proj1 (Forall_forall _ _) Hpre).
    by eapply list_elem_of_lookup_2.
Qed.

Lemma widest_column_first_witness :
  max_key (slack [5; 20; 20] [5; 9; 9]) (range (length [5; 20; 20])) = Some 1%nat
  ∧ (1 < length [5; 20; 20])%nat
  ∧ (∀ j, (j < length [5; 20; 20])%nat →
       slack [5; 20; 20] [5; 9; 9] j <= slack [5; 20; 20] [5; 9; 9] 1)
  ∧ (∀ j, (j < 1)%nat →
       slack [5; 20; 20] [5; 9; 9] j < slack [5; 20; 20] [5; 9; 9] 1).
Proof.
  split; [reflexivity |].
  apply (widest_column_first [5; 20; 20] [5; 9; 9] 1). reflexivity.
Defined.

(** X6: the loop widens no column and narrows none below its floor: every
    final width lies between the smaller of the original width and the floor,
    and the original width. *)
Theorem shrink_within_bounds (over_by : nat)
    (widths min_widths widths' : list Z) (i : nat) :
  shrink over_by widths min_widths = Some widths' →
  (i < length widths)%nat →
  Z.min (widths !!! i) (min_widths !!! i) <= widths' !!! i <= widths !!! i.
Proof.
  revert widths. induction over_by as [| n IH]; intros widths; simpl.
  { intros [= <-] _. lia. }
  destruct (max_key _ _) as [i0 |] eqn:Hmax; simpl; [| done].
  apply max_key_spec in Hmax as [Hi0 _]. apply elem_of_seq in Hi0.
  destruct (Z.leb_spec (widths !!! i0) (min_widths !!! i0)) as [Hle | Hgt].
  { intros [= <-] _. lia. }
  intros Hrec Hi. apply IH in Hrec; [| by rewrite length_insert].
  destruct (decide (i0 = i)) as [-> | Hne].
  - rewrite list_lookup_total_insert_eq in Hrec by lia. lia.
  - rewrite list_lookup_total_insert_ne in Hrec by done. lia.
Qed.

Lemma shrink_within_bounds_witness :
  shrink 3 [5; 20; 8] [5; 9; 6] = Some [5; 17; 8]
  ∧ (1 < length [5; 20; 8])%nat
  ∧ Z.min ([5; 20; 8] !!! 1%nat) ([5; 9; 6] !!! 1%nat)
    <= [5; 17; 8] !!! 1%nat <= [5; 20; 8] !!! 1%nat.
Proof.
  split; [reflexivity |]. split; [simpl; lia |].
  apply (shrink_within_bounds 3 [5; 20; 8] [5; 9; 6] [5; 17; 8] 1);
    [reflexivity | simpl; lia].
Defined.

(** ** The printed table *)

Lemma separator_line_fits_witness :
  layout 40 Sample.narrow_headers [Sample.narrow_row]
  = Some ([5; 19; 8],
          [[lit "BTC"; lit "2023-01-01T00:00:0" ++ ELLIPSIS; lit "MyWallet"]])
  ∧ Sample.narrow_headers ≠ []
  ∧ (len (sep_line Sample.narrow_headers [5; 19; 8]) < 40
     ∨ ∀ i, (i < length Sample.narrow_headers)%nat →
         slack [5; 19; 8] (map min_width Sample.narrow_headers) i <= 0).
Proof.
  assert (Hl : layout 40 Sample.narrow_headers [Sample.narrow_row]
               = Some ([5; 19; 8],
                       [[lit "BTC"; lit "2023-01-01T00:00:0" ++ ELLIPSIS;
                         lit "MyWallet"]])) by reflexivity.
  assert (Hne : Sample.narrow_headers ≠ []) by discriminate.
  split; [exact Hl |]. split; [exact Hne |].
  exact (separator_line_fits 40 _ _ _ _ Hl Hne).
Defined.

Lemma imap_range {A B} `{!Inhabited A} (f : nat → A → B) (xs : list A) :
  imap f xs = map (fun i => f i (xs !!! i)) (range (length xs)).
Proof.
  unfold range. revert f. induction xs as [| x xs IH]; intros f; [done |].
  rewrite imap_cons. simpl. f_equal.
  rewrite <- seq_shift, map_map. apply IH.
Qed.

Lemma max_of_ge_elem (x y : Z) (xs : list Z) : y ∈ xs → y <= max_of x xs.
Proof.
  unfold max_of. revert x. induction xs as [| z xs IH]; intros x Hin; simpl.
  { by apply elem_of_nil in Hin. }
  apply elem_of_cons in Hin as [-> | Hin]; [| by apply IH].
  etrans; [| apply (max_of_ge (Z.max x z) xs)]. lia.
Qed.

(** Every width covers its header and its cell of every row. *)
Lemma compute_widths_covers (hs : list str) (prelim_rows : list (list str))
    (ws : list Z) (i : nat) :
  compute_widths hs prelim_rows = Some ws → (i < length hs)%nat →
  len (hs !!! i) <= ws !!! i
  ∧ ∀ row, row ∈ prelim_rows →
      (i < length row)%nat ∧ len (row !!! i) <= ws !!! i.
Proof.
  unfold compute_widths. intros Hm Hi.
  apply mapM_Some_1 in Hm.
  destruct (lookup_lt_is_Some_2 hs i Hi) as [h Hh].
  assert (He : enumerate hs !! i = Some (i, h)).
  { unfold enumerate. by rewrite list_lookup_imap, Hh. }
  destruct (Forall2_lookup_l _ _ _ _ _ Hm He) as (w & Hw & Hf).
  simpl in Hf.
  destruct (col_items prelim_rows i) as [items |] eqn:Hitems; simplify_eq/=.
  rewrite (list_lookup_total_correct _ _ _ Hh).
  rewrite (list_lookup_total_correct _ _ _ Hw).
  split; [apply max_of_ge |].
  intros row Hrow. unfold col_items in Hitems.
  apply mapM_Some_1 in Hitems.
  apply list_elem_of_lookup_1 in Hrow as [r Hr].
  destruct (Forall2_lookup_l _ _ _ _ _ Hitems Hr) as (c & Hc & Hrc).
  split; [by apply lookup_lt_Some in Hrc |].
  rewrite (list_lookup_total_correct _ _ _ Hrc).
  apply max_of_ge_elem, list_elem_of_In, in_map, list_elem_of_In.
  by eapply list_elem_of_lookup_2.
Qed.

(** A line of one cell per column, each as wide as its column, behind the
    leading space and with separators of three characters. *)
Lemma len_line (sep : str) (cell : nat → str) (ws : list Z) :
  len sep = 3 → ws ≠ [] →
  (∀ i, (i < length ws)%nat → len (cell i) = ws !!! i) →
  len ([SPACE] ++ join sep (map cell (range (length ws)))) = total_width ws - 1.
Proof.
  intros Hsep Hne Hcell. unfold total_width.
  rewrite len_app, len_join, map_map, Hsep.
  rewrite (map_ext_in _ (fun i => ws !!! i)).
  - rewrite lookup_total_range.
    unfold len, range. rewrite length_map, length_seq. simpl.
    destruct ws; [done | simpl length; lia].
  - intros i Hi. apply in_seq in Hi. apply Hcell. lia.
Qed.

Lemma layout_fits (term_cols : Z) (hs : list str) (rows : list (list str))
    (ws : list Z) :
  natural_widths hs rows = Some ws → total_width ws <= term_cols →
  layout term_cols hs rows
  = Some (ws, map (map (fun c => _truncate_cell c soft_cap)) rows).
Proof.
  unfold natural_widths, layout. intros -> Hfit. simpl.
  destruct (Z.ltb_spec term_cols (total_width ws)); [lia | done].
Qed.

(** X8: when the table at its natural widths is within the terminal, the
    renderer returns, and the header line, the separator line and every data
    line have the same length, the total width less one: the table is
    aligned and no line reaches the terminal width. *)
Theorem fitting_table_aligned (term_cols : Z) (hs : list str)
    (rows : list (list str)) (ws : list Z) :
  hs ≠ [] → natural_widths hs rows = Some ws → total_width ws <= term_cols →
  ∃ lines,
    _print_ascii_table term_cols hs rows = Some lines
    ∧ Forall (fun line => len line = total_width ws - 1
                          ∧ len line < term_cols) lines.
Proof.
  intros Hne Hws Hfit. unfold _print_ascii_table.
  rewrite (layout_fits _ _ _ _ Hws Hfit). simpl. eexists. split; [done |].
  apply (Forall_impl (fun line => len line = total_width ws - 1));
    [| intros line ->; lia].
  unfold natural_widths in Hws.
  destruct (compute_widths_spec _ _ _ Hws) as [Hlen _].
  assert (Hwne : ws ≠ []) by (intros ->; by destruct hs).
  constructor; [| constructor].
  - unfold header_line, enumerate. rewrite imap_range, map_map, <- Hlen.
    apply (len_line _ (fun i => fmt_cell (hs !!! i) (ws !!! i) false));
      [done | done |].
    intros i Hi. rewrite len_fmt_cell.
    destruct (compute_widths_covers _ _ _ i Hws) as [Hh _]; lia.
  - unfold sep_line. rewrite <- Hlen.
    apply (len_line _ (fun i => repeat_char DASH (ws !!! i))); [done | done |].
    intros i Hi. rewrite len_repeat_char.
    destruct (compute_widths_covers _ _ _ i Hws) as [Hh _]; [lia |].
    pose proof (len_nonneg (hs !!! i)). lia.
  - apply Forall_forall. intros line Hline.
    apply list_elem_of_In, in_map_iff in Hline as (row & <- & Hrow).
    apply list_elem_of_In in Hrow.
    unfold row_line. rewrite <- Hlen.
    apply (len_line _ (fun i => fmt_cell (row !!! i) (ws !!! i) (is_numeric i)));
      [done | done |].
    intros i Hi. rewrite len_fmt_cell.
    destruct (compute_widths_covers _ _ _ i Hws) as [_ Hr]; [lia |].
    destruct (Hr row Hrow). lia.
Qed.

Lemma fitting_table_aligned_witness :
  Sample.narrow_headers ≠ []
  ∧ natural_widths Sample.narrow_headers [Sample.narrow_row] = Some [5; 20; 8]
  ∧ total_width [5; 20; 8] <= 80
  ∧ ∃ lines,
      _print_ascii_table 80 Sample.narrow_headers [Sample.narrow_row]
      = Some lines
      ∧ Forall (fun line => len line = total_width [5; 20; 8] - 1
                            ∧ len line < 80) lines.
Proof.
  assert (Hne : Sample.narrow_headers ≠ []) by discriminate.
  assert (Hws : natural_widths Sample.narrow_headers [Sample.narrow_row]
                = Some [5; 20; 8]) by reflexivity.
  assert (Hfit : total_width [5; 20; 8] <= 80) by (vm_compute; discriminate).
  split; [exact Hne |]. split; [exact Hws |]. split; [exact Hfit |].
  exact (fitting_table_aligned 80 _ _ _ Hne Hws Hfit).
Defined.

(** X9: on terminals wide enough for the table at its natural widths, the
    printed lines do not depend on the terminal width. *)
Theorem wide_terminal_irrelevant (term_cols term_cols' : Z) (hs : list str)
    (rows : list (list str)) (ws : list Z) :
  natural_widths hs rows = Some ws →
  total_width ws <= term_cols → total_width ws <= term_cols' →
  _print_ascii_table term_cols hs rows = _print_ascii_table term_cols' hs rows.
Proof.
  intros Hws Hfit Hfit'. unfold _print_ascii_table.
  by rewrite (layout_fits _ _ _ _ Hws Hfit), (layout_fits _ _ _ _ Hws Hfit').
Qed.

Lemma wide_terminal_irrelevant_witness :
  natural_widths Sample.narrow_headers [Sample.narrow_row] = Some [5; 20; 8]
  ∧ total_width [5; 20; 8] <= 80
  ∧ total_width [5; 20; 8] <= 120
  ∧ _print_ascii_table 80 Sample.narrow_headers [Sample.narrow_row]
    = _print_ascii_table 120 Sample.narrow_headers [Sample.narrow_row].
Proof.
  assert (Hws : natural_widths Sample.narrow_headers [Sample.narrow_row]
                = Some [5; 20; 8]) by reflexivity.
  assert (Hfit : total_width [5; 20; 8] <= 80) by (vm_compute; discriminate).
  assert (Hfit' : total_width [5; 20; 8] <= 120) by (vm_compute; discriminate).
  split; [exact Hws |]. split; [exact Hfit |]. split; [exact Hfit' |].
  exact (wide_terminal_irrelevant 80 120 _ _ _ Hws Hfit Hfit').
Defined.




(** X11: a row with fewer cells than there are headers makes the renderer
    raise, whatever the terminal width, before anything is printed. *)
Theorem short_row_raises (term_cols : Z) (hs : list str)
    (rows : list (list str)) :
  Exists (fun row => (length row < length hs)%nat) rows →
  _print_ascii_table term_cols hs rows = None.
Proof.
  intros Hex. unfold _print_ascii_table, layout.
  assert (Hw : compute_widths hs
                 (map (map (fun c => _truncate_cell c soft_cap)) rows) = None).
  { apply Exists_exists in Hex as (row & Hrow & Hshort).
    destruct (lookup_lt_is_Some_2 hs (length row) Hshort) as [h Hh].
    unfold compute_widths. apply mapM_None_2, Exists_exists.
    exists (length row, h). split.
    { apply (list_elem_of_lookup_2 _ (length row)).
      unfold enumerate. by rewrite list_lookup_imap, Hh. }
    simpl.
    assert (Hc : col_items (map (map (fun c => _truncate_cell c soft_cap)) rows)
                   (length row) = None); [| by rewrite Hc].
    unfold col_items. apply mapM_None_2, Exists_exists.
    exists (map (fun c => _truncate_cell c soft_cap) row). split.
    { by apply list_elem_of_In, in_map, list_elem_of_In. }
    apply lookup_ge_None. rewrite length_map. lia. }
  by rewrite Hw.
Qed.

Lemma short_row_raises_witness :
  Exists (fun row => (length row < length Sample.narrow_headers)%nat)
    [[lit "BTC"; lit "2023-01-01T00:00:00Z"]]
  ∧ _print_ascii_table 80 Sample.narrow_headers
      [[lit "BTC"; lit "2023-01-01T00:00:00Z"]] = None.
Proof.
  assert (Hex : Exists
                  (fun row => (length row < length Sample.narrow_headers)%nat)
                  [[lit "BTC"; lit "2023-01-01T00:00:00Z"]]).
  { apply Exists_cons_hd. simpl. lia. }
  split; [exact Hex |].
  exact (short_row_raises 80 _ _ Hex).
Defined.

(** ** Rows *)

(** X13: every exported row has one cell per header, twenty in all. *)
Theorem export_rows_width (years : gset Z) (audit_log : AuditLog)
    (tax_events : gmap Z (list TECG.t)) :
  length headers = 20%nat
  ∧ Forall (fun row => length row = length headers)
      (export_rows years audit_log tax_events).
Proof.
  split; [reflexivity |].
  unfold export_rows, data_rows. apply Forall_forall. intros row Hin.
  apply list_elem_of_In, in_flat_map in Hin as (a & _ & Hin).
  apply in_map_iff in Hin as (e & <- & _). apply make_row_length.
Qed.

Lemma default_parts_lookup (m : gmap Z (gmap str AuditLogEntry)) (k : Z)
    (name : str) :
  default ∅ (m !! k) !! name = m !! k ≫= (.!! name).
Proof. destruct (m !! k); [done | apply lookup_empty]. Qed.

(** X15: in a row of an entry with transaction key [k] whose role has an
    opposite role, the two counter balance columns are the formatted wallet
    and total balances of the last entry of the audit log with key [k] and
    the opposite role, and empty when the audit log has no such entry. *)
Theorem counter_balances_from_log (tr_to_pl : gmap Z PL.t)
    (audit_log : AuditLog) (asset_key : str) (e : AuditLogEntry) (k : Z)
    (q : TrRecordPart) :
  tid_key (t_record e) = Some k → opposite_part (tr_part e) = Some q →
  drop 2 (counter_columns
            (make_row tr_to_pl (build_tr_to_entries audit_log) asset_key e))
  = match last (legs k q (all_entries audit_log)) with
    | Some o => [fmt_qty (Some (balance o)); fmt_qty (Some (total o))]
    | None => [[]; []]
    end.
Proof.
  intros Hk Hq. rewrite counter_columns_make_row.
  unfold counter_cols. rewrite Hk.
  assert (Hidx : ∀ p,
             default ∅ (build_tr_to_entries audit_log !! k)
               !! TrRecordPart_name p
             = last (legs k p (all_entries audit_log))).
  { intros p. rewrite default_parts_lookup. unfold build_tr_to_entries.
    rewrite fold_entries_step_lookup, lookup_empty. by destruct (last _). }
  destruct (tr_part e); simplify_eq/=.
  - change (lit "SELL") with (TrRecordPart_name SELL). rewrite Hidx.
    destruct (sell (t_record e)); by destruct (last _).
  - change (lit "BUY") with (TrRecordPart_name BUY). rewrite Hidx.
    destruct (buy (t_record e)); by destruct (last _).
Qed.

Lemma counter_balances_from_log_witness :
  tid_key (t_record Sample.trade_buy) = Some 1
  ∧ opposite_part (tr_part Sample.trade_buy) = Some SELL
  ∧ drop 2 (counter_columns
              (make_row ∅ (build_tr_to_entries Sample.trade_log) (lit "ETH")
                 Sample.trade_buy))
    = match last (legs 1 SELL (all_entries Sample.trade_log)) with
      | Some o => [fmt_qty (Some (balance o)); fmt_qty (Some (total o))]
      | None => [[]; []]
      end.
Proof.
  split; [reflexivity |]. split; [reflexivity |].
  apply (counter_balances_from_log ∅ Sample.trade_log (lit "ETH")
           Sample.trade_buy 1 SELL); reflexivity.
Defined.

(** X16: in a row of a SELL entry with transaction key [k], the four
    disposal columns are the formatted Decimal sums of proceeds, cost, fees
    and gain over the visited capital gains events that resolve to [k], and
    empty when no visited event does. *)
Theorem sell_columns_show_sums (years : gset Z)
    (tax_events : gmap Z (list TECG.t))
    (tr_to_entries : gmap Z (gmap str AuditLogEntry)) (asset_key : str)
    (e : AuditLogEntry) (k : Z) :
  tr_part e = SELL → tid_key (t_record e) = Some k →
  sell_columns
    (make_row (build_tr_to_pl years tax_events) tr_to_entries asset_key e)
  = match contributing k (recognized_events years tax_events) with
    | [] => [[]; []; []; []]
    | c => [fmt_val (Some (dec_sum (map TECG.proceeds c)));
            fmt_val (Some (dec_sum (map TECG.cost c)));
            fmt_val (Some (dec_sum (map TECG.fees c)));
            fmt_val (Some (dec_sum (map TECG.gain c)))]
    end.
Proof.
  intros Hp Hk. rewrite sell_columns_make_row.
  unfold sell_cols. rewrite Hp, Hk. unfold build_tr_to_pl.
  rewrite fold_pl_step_lookup, lookup_empty.
  destruct (contributing k _) as [| te c]; [done |].
  change (default PL.zero None) with PL.zero.
  destruct (fold_add_event_fields (te :: c) PL.zero) as (H1 & H2 & H3 & H4).
  cbv beta iota. by rewrite H1, H2, H3, H4.
Qed.

Lemma sell_columns_show_sums_witness :
  tr_part Sample.trade_sell = SELL
  ∧ tid_key (t_record Sample.trade_sell) = Some 1
  ∧ sell_columns
      (make_row (build_tr_to_pl Sample.years Sample.tax_events)
         (build_tr_to_entries Sample.trade_log) (lit "BTC") Sample.trade_sell)
    = match contributing 1
              (recognized_events Sample.years Sample.tax_events) with
      | [] => [[]; []; []; []]
      | c => [fmt_val (Some (dec_sum (map TECG.proceeds c)));
              fmt_val (Some (dec_sum (map TECG.cost c)));
              fmt_val (Some (dec_sum (map TECG.fees c)));
              fmt_val (Some (dec_sum (map TECG.gain c)))]
      end.
Proof.
  split; [reflexivity |]. split; [reflexivity |].
  apply (sell_columns_show_sums Sample.years Sample.tax_events
           (build_tr_to_entries Sample.trade_log) (lit "BTC")
           Sample.trade_sell 1); reflexivity.
Defined.

(** ** Formatting *)

Lemma truthy_nonempty (s : option str) : truthy s = true → str_of s ≠ [].
Proof. by destruct s as [[| ? ?] |]. Qed.

(** X17: the transaction reference is empty exactly when the record carries
    no raw transaction data, or data whose hash, source and destination are
    all absent or empty. *)
Theorem fmt_tx_empty_iff (tr : TransactionRecord) :
  fmt_tx tr = []
  ↔ ∀ txr, t_row tr ≫= tx_raw = Some txr →
      truthy (tx_hash txr) = false
      ∧ truthy (tx_src txr) = false
      ∧ truthy (tx_dest txr) = false.
Proof.
  unfold fmt_tx. destruct (t_row tr ≫= tx_raw) as [txr |]; [| done].
  split.
  - intros Hempty txr' [= <-]. revert Hempty.
    destruct (truthy (tx_hash txr)) eqn:Hh.
    { intros Hempty. by apply truthy_nonempty in Hh. }
    destruct (truthy (tx_src txr)) eqn:Hs, (truthy (tx_dest txr)) eqn:Hd;
      simpl; intros Hempty; try done.
    + apply truthy_nonempty in Hs. by destruct (str_of (tx_src txr)).
    + by apply truthy_nonempty in Hs.
    + by apply truthy_nonempty in Hd.
  - intros Hall. destruct (Hall txr eq_refl) as (-> & -> & ->). done.
Qed.

Lemma digits_of_uint_digits (d : Decimal.uint) :
  Forall is_digit (Dec.digits_of_uint d).
Proof.
  unfold is_digit. induction d; simpl; constructor; try done; lia.
Qed.

(** X18: a currency amount is rendered as an optional minus sign, at least
    one digit, a point and exactly two digits. *)
Theorem fmt_val_two_fraction_digits (x : Dec.t) :
  ∃ sign int frac,
    fmt_val (Some x) = sign ++ int ++ Dec.DOT :: frac
    ∧ (sign = [] ∨ sign = [Dec.MINUS])
    ∧ int ≠ [] ∧ Forall is_digit int
    ∧ length frac = 2%nat ∧ Forall is_digit frac.
Proof.
  unfold fmt_val, Dec.format_2f.
  destruct (Dec.rescale x (-2)) as [s c e] eqn:Hr.
  assert (e = -2) as ->.
  { unfold Dec.rescale in Hr. repeat case_match; by simplify_eq. }
  clear Hr. unfold Dec.fixed_point. cbn [Dec.exp Dec.coeff Dec.sign].
  change (0 <? -2) with false. rewrite andb_false_r.
  cbn [Dec.exp Dec.coeff Dec.sign].
  pose proof (digits_of_uint_digits (N.to_uint c)) as Hds.
  fold (Dec.digits c) in Hds.
  set (ds := Dec.digits c) in *. clearbody ds.
  assert (Hzero : is_digit Dec.ZERO) by (unfold is_digit, Dec.ZERO; lia).
  exists (if s then [Dec.MINUS] else []).
  destruct (Z.ltb_spec (-2 + len ds) 0) as [Hneg | Hpos].
  - exists [Dec.ZERO], (repeat_char Dec.ZERO (- (-2 + len ds)) ++ ds).
    assert (Hlen : length (repeat_char Dec.ZERO (- (-2 + len ds)) ++ ds)
                   = 2%nat).
    { rewrite length_app. unfold repeat_char. rewrite length_replicate.
      unfold len in *. lia. }
    split_and!; try done.
    + by destruct (repeat_char Dec.ZERO (- (-2 + len ds)) ++ ds).
    + destruct s; auto.
    + by constructor.
    + apply Forall_app. split; [by apply Forall_replicate | done].
  - destruct (Z.ltb_spec (len ds) (-2 + len ds)) as [Himp | _]; [lia |].
    exists (match take (Z.to_nat (-2 + len ds)) ds with
            | [] => [Dec.ZERO]
            | i => i
            end), (drop (Z.to_nat (-2 + len ds)) ds).
    assert (Hlen : length (drop (Z.to_nat (-2 + len ds)) ds) = 2%nat).
    { rewrite length_drop. unfold len in *. lia. }
    split_and!; try done.
    + by destruct (drop (Z.to_nat (-2 + len ds)) ds).
    + destruct s; auto.
    + by destruct (take _ ds).
    + assert (Ht : Forall is_digit (take (Z.to_nat (-2 + len ds)) ds))
        by (by apply Forall_take).
      destruct (take _ ds); [by constructor | done].
    + by apply Forall_drop.
Qed.

(** X19: both formatters return the empty string for an absent value and
    for nothing else. *)
Theorem absent_iff_empty (x : option Dec.t) :
  (fmt_qty x = [] ↔ x = None) ∧ (fmt_val x = [] ↔ x = None).
Proof.
  destruct x as [x |]; [| done].
  split; (split; [intros H; by apply fixed_point_nonempty in H | done]).
Qed.

(** ** Orders of iteration *)

Lemma flat_map_ext_elem {A B} (f g : A → list B) (l : list A) :
  (∀ a, a ∈ l → f a = g a) → flat_map f l = flat_map g l.
Proof.
  induction l as [| a l IH]; intros Hfg; simpl; [done |].
  rewrite (Hfg a) by (apply elem_of_cons; auto).
  rewrite IH; [done |]. intros b Hb. apply Hfg, elem_of_cons. auto.
Qed.

Lemma StronglySorted_filter {A} (R : relation A) (P : A → Prop)
    `{∀ x, Decision (P x)} (l : list A) :
  StronglySorted R l → StronglySorted R (filter P l).
Proof.
  induction 1 as [| x l Hl IH Hx]; [constructor |].
  rewrite filter_cons. destruct (decide (P x)); [| done].
  constructor; [done |]. apply Forall_forall.
  intros y [_ Hy]%list_elem_of_filter.
  by apply (proj1 (Forall_forall _ _) Hx).
Qed.

(** X20: the order in which the entries are visited, and so the order of the
    rows, depends on the items of the audit log only, not on the order in
    which the assets were inserted. *)
Theorem row_order_ignores_insertion_order (log1 log2 : AuditLog) :
  NoDup (map fst log1) → log1 ≡ₚ log2 →
  row_sources log1 = row_sources log2.
Proof.
  intros Hnd Hperm.
  assert (Hkeys : map fst log1 ≡ₚ map fst log2) by (by apply Permutation_map).
  assert (Hnd2 : NoDup (map fst log2)).
  { apply NoDup_ListNoDup. eapply Permutation_NoDup; [exact Hkeys |].
    by apply NoDup_ListNoDup. }
  assert (Hs : sorted_assets log1 = sorted_assets log2).
  { unfold sorted_assets.
    apply (StronglySorted_unique str_le);
      [apply StronglySorted_merge_sort; apply _
      | apply StronglySorted_merge_sort; apply _ |].
    by rewrite !merge_sort_Permutation. }
  unfold row_sources. rewrite Hs. apply flat_map_ext_elem. intros a Ha.
  do 2 f_equal.
  unfold sorted_assets in Ha. rewrite merge_sort_Permutation in Ha.
  apply list_elem_of_In, in_map_iff in Ha as ([a' es] & <- & Hin).
  apply list_elem_of_In in Hin. simpl.
  rewrite (dict_get_item log2 a' es Hnd2 Hin).
  rewrite <- Hperm in Hin.
  by rewrite (dict_get_item log1 a' es Hnd Hin).
Qed.

Lemma row_order_ignores_insertion_order_witness :
  NoDup (map fst Sample.trade_log)
  ∧ Sample.trade_log ≡ₚ reverse Sample.trade_log
  ∧ row_sources Sample.trade_log = row_sources (reverse Sample.trade_log).
Proof.
  assert (Hnd : NoDup (map fst Sample.trade_log)).
  { apply (bool_decide_unpack _). vm_compute. exact I. }
  assert (Hperm : Sample.trade_log ≡ₚ reverse Sample.trade_log).
  { apply perm_swap. }
  split; [exact Hnd |]. split; [exact Hperm |].
  exact (row_order_ignores_insertion_order _ _ Hnd Hperm).
Defined.

(** X21: the events filed under a year that is not recognised have no part
    in the aggregates: removing such a year from the tax events leaves the
    mapping as it is. *)
Theorem unrecognized_year_ignored (years : gset Z)
    (tax_events : gmap Z (list TECG.t)) (year : Z) :
  year ∉ years →
  build_tr_to_pl years (delete year tax_events)
  = build_tr_to_pl years tax_events.
Proof.
  intros Hyear. unfold build_tr_to_pl. f_equal. unfold recognized_events.
  assert (Hl : filter (fun y => y ∈ years)
                 (sorted_years (delete year tax_events))
               = filter (fun y => y ∈ years) (sorted_years tax_events)).
  { apply (StronglySorted_unique Z.le);
      [apply StronglySorted_filter, StronglySorted_merge_sort; apply _
      | apply StronglySorted_filter, StronglySorted_merge_sort; apply _ |].
    unfold sorted_years. rewrite !merge_sort_Permutation.
    destruct (tax_events !! year) as [es |] eqn:Hes.
    - rewrite <- (map_to_list_delete tax_events year es Hes). simpl.
      by rewrite filter_cons_False.
    - by rewrite delete_id. }
  rewrite Hl. apply flat_map_ext_elem.
  intros y [Hy _]%list_elem_of_filter.
  rewrite lookup_delete_ne; [done |]. by intros ->.
Qed.

Lemma unrecognized_year_ignored_witness :
  (1999 ∉ Sample.years)
  ∧ build_tr_to_pl Sample.years (delete 1999 Sample.tax_events)
    = build_tr_to_pl Sample.years Sample.tax_events.
Proof.
  assert (Hyear : 1999 ∉ Sample.years).
  { apply (bool_decide_unpack _). vm_compute. exact I. }
  split; [exact Hyear |].
  exact (unrecognized_year_ignored Sample.years Sample.tax_events 1999 Hyear).
Defined.

(** ** The excess and the loop *)

(** The loop takes at most the excess off the widths. *)
Lemma shrink_at_most (over_by : nat) (widths min_widths widths' : list Z) :
  shrink over_by widths min_widths = Some widths' →
  sum widths - Z.of_nat over_by <= sum widths'.
Proof.
  revert widths. induction over_by as [| n IH]; intros widths; simpl.
  { intros [= <-]. lia. }
  destruct (max_key _ _) as [i |] eqn:Hmax; simpl; [| done].
  apply max_key_spec in Hmax as [Hi _]. apply elem_of_seq in Hi.
  destruct (_ <=? _); [intros [= <-]; lia |].
  intros Hrec. apply IH in Hrec.
  rewrite (sum_insert _ _ (widths !!! i)) in Hrec
    by (apply list_lookup_lookup_total_lt; lia).
  lia.
Qed.

(** X22: when the table at its natural widths is wider than the terminal and
    the renderer returns, the loop has narrowed the columns by exactly the
    excess, so that the total width equals the terminal width, or it has
    stopped because no column has slack left; it never narrows further than
    the terminal asks for. *)
Theorem shrunk_table_exact_width (term_cols : Z) (hs : list str)
    (rows : list (list str)) (ws0 ws : list Z) (cells : list (list str)) :
  natural_widths hs rows = Some ws0 → term_cols < total_width ws0 →
  layout term_cols hs rows = Some (ws, cells) →
  total_width ws = term_cols
  ∨ (term_cols < total_width ws
     ∧ ∀ i, (i < length hs)%nat → slack ws (map min_width hs) i <= 0).
Proof.
  unfold natural_widths, layout. intros Hw0 Hover. rewrite Hw0. simpl.
  destruct (Z.ltb_spec term_cols (total_width ws0)) as [_ | Hfit]; [| lia].
  destruct (shrink _ ws0 _) as [ws1 |] eqn:Hs; simpl; [| done].
  destruct (mapM _ _) as [cells1 |]; simpl; [| done].
  intros [= <- <-].
  apply compute_widths_spec in Hw0 as [Hlen _].
  pose proof (shrink_spec _ _ _ _ Hs) as [Hlen1 Hor].
  assert (Hge : term_cols <= total_width ws1).
  { apply shrink_at_most in Hs. unfold total_width, len in *.
    rewrite Hlen1. lia. }
  destruct Hor as [Hsum | Hfloor].
  - left. rewrite (total_width_length ws0 ws1 _ Hlen1 Hsum). lia.
  - destruct (decide (total_width ws1 = term_cols)) as [| Hne]; [by left |].
    right. split; [lia |]. intros i Hi. apply Hfloor. lia.
Qed.

Lemma shrunk_table_exact_width_witness :
  natural_widths Sample.narrow_headers [Sample.narrow_row] = Some [5; 20; 8]
  ∧ 40 < total_width [5; 20; 8]
  ∧ layout 40 Sample.narrow_headers [Sample.narrow_row]
    = Some ([5; 19; 8],
            [[lit "BTC"; lit "2023-01-01T00:00:0" ++ ELLIPSIS; lit "MyWallet"]])
  ∧ (total_width [5; 19; 8] = 40
     ∨ (40 < total_width [5; 19; 8]
        ∧ ∀ i, (i < length Sample.narrow_headers)%nat →
            slack [5; 19; 8] (map min_width Sample.narrow_headers) i <= 0)).
Proof.
  assert (Hws : natural_widths Sample.narrow_headers [Sample.narrow_row]
                = Some [5; 20; 8]) by reflexivity.
  assert (Hover : 40 < total_width [5; 20; 8]) by reflexivity.
  assert (Hl : layout 40 Sample.narrow_headers [Sample.narrow_row]
               = Some ([5; 19; 8],
                       [[lit "BTC"; lit "2023-01-01T00:00:0" ++ ELLIPSIS;
                         lit "MyWallet"]])) by reflexivity.
  split; [exact Hws |]. split; [exact Hover |]. split; [exact Hl |].
  exact (shrunk_table_exact_width 40 _ _ _ _ _ Hws Hover Hl).
Defined.
